(** * CORS middleware of @macchiatojs/cors: a shallow embedding of src/index.ts

    The middleware factory [cors] resolves its options once, into the
    variables of a closure, and returns a request handler built around the
    inner function [main].  The embedding keeps that shape: [cors] yields
    the closure, [main] is a computation in a small state monad whose state
    holds the closure variables, the response object of the request in
    flight and a log of the calls made to the continuation. *)

From stdpp Require Import gmap strings pretty.

Local Open Scope Z_scope.

(** ** JavaScript values that occur in the options *)

(** The TypeScript type [string | string[]]; response header values have
    the same shape, since [response.set] is handed such a value. *)
Inductive StringOrArray :=
  | Str (s : string)
  | Arr (l : list string).

#[global] Instance StringOrArray_eq_dec : EqDecision StringOrArray.
Proof. solve_decision. Defined.

(** An optional property [k?: A] of an object literal.  The key may be left
    out, or be present; a present key may still hold [undefined], which is
    the [None] of the [option]. *)
Inductive Property (A : Type) :=
  | Omitted
  | Given (v : option A).
Arguments Omitted {A}.
Arguments Given {A} v.

(** Reading a property: a missing key reads as [undefined]. *)
Definition read {A} (p : Property A) : option A :=
  match p with
  | Omitted => None
  | Given v => v
  end.

(** One key of [{ ...a, ...b }]: the later object wins whenever it has the
    key at all, whatever the key holds. *)
Definition spread_key {A} (a b : Property A) : Property A :=
  match b with
  | Omitted => a
  | Given _ => b
  end.

(** Truthiness, for the types the source tests. *)
Definition truthy_string (s : string) : bool := negb (String.eqb s "").

Definition truthy_bool (b : option bool) : bool :=
  match b with
  | Some true => true
  | _ => false
  end.

Definition truthy_number (n : option Z) : bool :=
  match n with
  | Some z => negb (z =? 0)
  | None => false
  end.

(** [undefined] and the empty string are falsy; every array is truthy. *)
Definition truthy (v : option StringOrArray) : bool :=
  match v with
  | None => false
  | Some (Str s) => truthy_string s
  | Some (Arr _) => true
  end.

Definition truthy_header (v : option string) : bool :=
  match v with
  | None => false
  | Some s => truthy_string s
  end.

(** [Array.prototype.join(',')] on an array of strings. *)
Definition join (l : list string) : string := String.concat "," l.

(** [if (Array.isArray(x)) x = x.join(',')] *)
Definition join_if_array (v : option StringOrArray) : option StringOrArray :=
  match v with
  | Some (Arr l) => Some (Str (join l))
  | _ => v
  end.

(** ** Options *)

Record CorsOptions := {
  expressify : Property bool;
  origins : Property StringOrArray;
  allowMethods : Property StringOrArray;
  allowHeaders : Property StringOrArray;
  exposeHeaders : Property StringOrArray;
  credentials : Property bool;
  maxAge : Property Z  (* seconds, an integer by the documentation *)
}.

Definition defaultOptions : CorsOptions := {|
  expressify := Given (Some true);
  origins := Omitted;
  allowMethods := Given (Some (Str "GET,HEAD,PATCH,PUT,POST,DELETE"));
  allowHeaders := Omitted;
  exposeHeaders := Omitted;
  credentials := Given (Some false);
  maxAge := Given (Some 0)
|}.

(** The empty object literal [{}]. *)
Definition noOptions : CorsOptions := {|
  expressify := Omitted;
  origins := Omitted;
  allowMethods := Omitted;
  allowHeaders := Omitted;
  exposeHeaders := Omitted;
  credentials := Omitted;
  maxAge := Omitted
|}.

(** [{ ...a, ...b }], where [b] may be [undefined] (spreading [undefined]
    adds no key). *)
Definition spread (a : CorsOptions) (b : option CorsOptions) : CorsOptions :=
  match b with
  | None => a
  | Some b => {|
      expressify := spread_key (expressify a) (expressify b);
      origins := spread_key (origins a) (origins b);
      allowMethods := spread_key (allowMethods a) (allowMethods b);
      allowHeaders := spread_key (allowHeaders a) (allowHeaders b);
      exposeHeaders := spread_key (exposeHeaders a) (exposeHeaders b);
      credentials := spread_key (credentials a) (credentials b);
      maxAge := spread_key (maxAge a) (maxAge b)
    |}
  end.

(** ** The closure of [cors] *)

(** The seven [let] variables that [main] closes over. *)
Record Env := {
  var_expressify : option bool;
  var_credentials : bool;
  var_origins : option StringOrArray;
  var_allowMethods : option StringOrArray;
  var_maxAge : option Z;
  var_allowHeaders : option StringOrArray;
  var_exposeHeaders : option StringOrArray
}.

Definition set_allowHeaders (v : option StringOrArray) (e : Env) : Env := {|
  var_expressify := var_expressify e;
  var_credentials := var_credentials e;
  var_origins := var_origins e;
  var_allowMethods := var_allowMethods e;
  var_maxAge := var_maxAge e;
  var_allowHeaders := v;
  var_exposeHeaders := var_exposeHeaders e
|}.

(** ** Request and response views of the host *)

(** Header names are taken as the host normalises them: a name is looked up
    under the spelling the source uses. *)
Record Request := {
  method : string;
  request_headers : gmap string string
}.

(** Modelled from the spec: [request.get] of the host kernel, "read-only
    access to ... headers"; an absent header reads as [undefined]. *)
Definition Request_get (request : Request) (name : string) : option string :=
  request_headers request !! name.

Record Response := {
  headers : gmap string StringOrArray;
  status : Z;
  body : option string
}.

(** The continuation [next]: the rest of the pipeline, acting on the
    response. *)
Definition Next := Response → Response.

Record Context := {
  context_request : Request;
  context_response : Response
}.

(** ** The state monad of [main] *)

(** [proceeded] logs the calls to the continuation: one entry per call, the
    response as it stood when the continuation took over. *)
Record World := {
  closure : Env;
  response : Response;
  proceeded : list Response
}.

Definition M (A : Type) : Type := World → A * World.

#[global] Instance M_ret : MRet M := λ A a w, (a, w).
#[global] Instance M_bind : MBind M :=
  λ A B f m w, let '(a, w') := m w in f a w'.

Definition var {A} (proj : Env → A) : M A := λ w, (proj (closure w), w).

Definition assign_allowHeaders (v : option StringOrArray) : M unit :=
  λ w, (tt, {| closure := set_allowHeaders v (closure w);
               response := response w;
               proceeded := proceeded w |}).

Definition update_response (f : Response → Response) : M unit :=
  λ w, (tt, {| closure := closure w;
               response := f (response w);
               proceeded := proceeded w |}).

(** The response with one header written, the rest as it was. *)
Definition set_header (name : string) (value : StringOrArray)
    (r : Response) : Response :=
  {| headers := <[name := value]> (headers r);
     status := status r;
     body := body r |}.

(** Modelled from the spec: [response.set] of the host kernel, "setting ...
    a header value". *)
Definition Response_set (name : string) (value : StringOrArray) : M unit :=
  update_response (set_header name value).

(** Modelled from the spec: [response.vary] of the host kernel, "additive:
    if [Vary] already has other values ... comma-space joined, never
    overwriting existing values; if absent, set to" the field. *)
Definition vary_value (old : option StringOrArray) (field : string) : string :=
  match old with
  | None => field
  | Some (Str s) => s +:+ ", " +:+ field
  | Some (Arr l) => String.concat ", " l +:+ ", " +:+ field
  end.

(** Modelled from the spec: [response.vary] writes the accumulated value
    back to the [Vary] header. *)
Definition Response_vary (field : string) : M unit :=
  update_response (λ r,
    set_header "Vary" (Str (vary_value (headers r !! "Vary") field)) r).

(** The response with its status and body written. *)
Definition send (code : Z) (payload : string) (r : Response) : Response :=
  {| headers := headers r; status := code; body := Some payload |}.

(** Modelled from the spec: [response.send] of the host kernel,
    "short-circuiting with a status code and empty body". *)
Definition Response_send (code : Z) (payload : string) : M unit :=
  update_response (send code payload).

(** Calling the continuation: the rest of the pipeline runs on the response
    as it stands, and the call is logged. *)
Definition call (next : Next) : M unit :=
  λ w, (tt, {| closure := closure w;
               response := next (response w);
               proceeded := proceeded w ++ [response w] |}).

Definition when (c : bool) (m : M unit) : M unit :=
  if c then m else mret tt.

(** ** [main] *)

Definition main (request : Request) (next : Next) : M unit :=
  let requestOrigin := Request_get request "Origin" in
  match requestOrigin with
  | None => call next
  | Some requestOrigin =>
    (* early out when we don't find origin *)
    if negb (truthy_string requestOrigin)
       || (String.length requestOrigin =? 0)%nat
    then call next
    else
      origins ← var var_origins;
      let origin := default (Str requestOrigin) origins in
      (* Always set vary header *)
      Response_vary "Origin";;
      Response_set "Access-Control-Allow-Origin" origin;;
      credentials ← var var_credentials;
      when credentials
        (Response_set "Access-Control-Allow-Credentials" (Str "true"));;
      (* simple cross-origin request, current request, and redirects *)
      if negb (String.eqb (method request) "OPTIONS")
         || negb (truthy_header
                    (Request_get request "Access-Control-Request-Method"))
      then
        exposeHeaders ← var var_exposeHeaders;
        match exposeHeaders with
        | Some v =>
            when (truthy exposeHeaders)
              (Response_set "Access-Control-Expose-Headers" v)
        | None => mret tt
        end;;
        call next
      else
        (* Preflight Request *)
        allowMethods ← var var_allowMethods;
        match allowMethods with
        | Some v =>
            when (truthy allowMethods)
              (Response_set "Access-Control-Allow-Methods" v)
        | None => mret tt
        end;;
        allowHeaders ← var var_allowHeaders;
        when (negb (truthy allowHeaders))
          (assign_allowHeaders
             (Str <$> Request_get request "Access-Control-Request-Headers"));;
        allowHeaders ← var var_allowHeaders;
        match allowHeaders with
        | Some v =>
            when (truthy allowHeaders)
              (Response_set "Access-Control-Allow-Headers" v)
        | None => mret tt
        end;;
        maxAge ← var var_maxAge;
        match maxAge with
        | Some seconds =>
            when (truthy_number maxAge && (0 <? seconds))
              (Response_set "Access-Control-Max-Age" (Str (pretty seconds)))
        | None => mret tt
        end;;
        Response_send 204 ""
  end.

(** ** [cors] *)

(** The handler that [cors] returns, under one of two calling conventions;
    either way it carries the closure it was built in. *)
Inductive Middleware :=
  | ExpressStyle (env : Env)   (* (request, response, next) => main (...) *)
  | ContextStyle (env : Env).  (* (context, next) => main (...) *)

Definition cors_env (options : option CorsOptions) : Env :=
  let options := spread defaultOptions options in
  {| var_expressify := read (expressify options);
     var_credentials := truthy_bool (read (credentials options));
     var_origins := read (origins options);
     var_allowMethods := join_if_array (read (allowMethods options));
     var_maxAge := read (maxAge options);
     var_allowHeaders := join_if_array (read (allowHeaders options));
     var_exposeHeaders := join_if_array (read (exposeHeaders options)) |}.

Definition cors (options : option CorsOptions) : Middleware :=
  let env := cors_env options in
  if truthy_bool (var_expressify env)
  then ExpressStyle env
  else ContextStyle env.

Definition env_of (mw : Middleware) : Env :=
  match mw with
  | ExpressStyle env | ContextStyle env => env
  end.

(** What one invocation leaves behind. *)
Record Outcome := {
  final_response : Response;
  next_calls : list Response
}.

(** The response as the evaluator's own mutations leave it: what the
    continuation was handed or, when it was not called, the final
    response. *)
Definition evaluated (out : Outcome) : Response :=
  match next_calls out with
  | r :: _ => r
  | [] => final_response out
  end.

(** One run of [main] on a response object, from the closure [env]. *)
Definition run_main (env : Env) (request : Request) (res : Response)
    (next : Next) : Env * Outcome :=
  let '(_, w) := main request next
                   {| closure := env; response := res; proceeded := [] |} in
  (closure w, {| final_response := response w; next_calls := proceeded w |}).

(** A request as the pipeline presents it. *)
Record Job := {
  job_request : Request;
  job_response : Response;
  job_next : Next
}.

(** Invoking the handler under its calling convention. *)
Definition invoke (mw : Middleware) (job : Job) : Middleware * Outcome :=
  match mw with
  | ExpressStyle env =>
      let '(env', out) :=
        run_main env (job_request job) (job_response job) (job_next job) in
      (ExpressStyle env', out)
  | ContextStyle env =>
      let context := {| context_request := job_request job;
                        context_response := job_response job |} in
      let '(env', out) :=
        run_main env (context_request context) (context_response context)
                 (job_next job) in
      (ContextStyle env', out)
  end.

(** The handler serving the requests of a pipeline one after the other. *)
Fixpoint serve (mw : Middleware) (jobs : list Job) : list Outcome :=
  match jobs with
  | [] => []
  | job :: jobs =>
      let '(mw', out) := invoke mw job in
      out :: serve mw' jobs
  end.

(** ** Vocabulary of the statements *)

(** The request carries the non-empty [Origin] value [o]. *)
Definition has_origin (request : Request) (o : string) : Prop :=
  Request_get request "Origin" = Some o ∧ o ≠ "".

(** The [Origin] header is absent, or present and empty. *)
Definition no_origin (request : Request) : Prop :=
  Request_get request "Origin" = None ∨ Request_get request "Origin" = Some "".

(** A preflight request: method [OPTIONS], and a non-empty
    [Access-Control-Request-Method] header. *)
Definition preflight (request : Request) : Prop :=
  method request = "OPTIONS" ∧
  ∃ m, Request_get request "Access-Control-Request-Method" = Some m ∧ m ≠ "".

Definition is_preflight (request : Request) : bool :=
  String.eqb (method request) "OPTIONS"
  && truthy_header (Request_get request "Access-Control-Request-Method").

(** The value the caller supplied for an option, if any: [None] when no
    options object was passed, when the key is left out and when it holds
    [undefined]. *)
Definition configured {A} (options : option CorsOptions)
    (key : CorsOptions → Property A) : option A :=
  match options with
  | Some o => read (key o)
  | None => None
  end.

(** A header is written only when its value is truthy. *)
Definition set_if_truthy (name : string) (v : option StringOrArray)
    (r : Response) : Response :=
  match v with
  | Some x => if truthy v then set_header name x r else r
  | None => r
  end.

(** The mutations every cross-origin request receives (lines 52-58). *)
Definition common_headers (env : Env) (o : string) (r : Response) : Response :=
  let r1 := set_header "Vary" (Str (vary_value (headers r !! "Vary") "Origin")) r in
  let r2 := set_header "Access-Control-Allow-Origin"
              (default (Str o) (var_origins env)) r1 in
  if var_credentials env
  then set_header "Access-Control-Allow-Credentials" (Str "true") r2
  else r2.

(** The value of [allowHeaders] after line 68. *)
Definition resolved_allowHeaders (env : Env) (request : Request)
    : option StringOrArray :=
  if truthy (var_allowHeaders env)
  then var_allowHeaders env
  else Str <$> Request_get request "Access-Control-Request-Headers".

Definition set_max_age (maxAge : option Z) (r : Response) : Response :=
  match maxAge with
  | Some seconds =>
      if truthy_number maxAge && (0 <? seconds)
      then set_header "Access-Control-Max-Age" (Str (pretty seconds)) r
      else r
  | None => r
  end.

(** ** Relations and shapes used in the proofs *)

(** [evolves e e']: [e'] is a state the closure can be in after the handler
    built with [e] has served some requests. *)
Definition evolves (e e' : Env) : Prop :=
  var_expressify e' = var_expressify e ∧
  var_credentials e' = var_credentials e ∧
  var_origins e' = var_origins e ∧
  var_allowMethods e' = var_allowMethods e ∧
  var_maxAge e' = var_maxAge e ∧
  var_exposeHeaders e' = var_exposeHeaders e ∧
  (truthy (var_allowHeaders e) = true →
   var_allowHeaders e' = var_allowHeaders e) ∧
  (∀ l, var_allowHeaders e' = Some (Arr l) →
        var_allowHeaders e = Some (Arr l)).

(** The response [main] hands to the continuation on a simple cross-origin
    request, and the one it sends on a preflight. *)
Definition simple_response (env : Env) (o : string) (res : Response)
    : Response :=
  set_if_truthy "Access-Control-Expose-Headers" (var_exposeHeaders env)
    (common_headers env o res).

Definition preflight_response (env : Env) (request : Request) (o : string)
    (res : Response) : Response :=
  send 204 ""
    (set_max_age (var_maxAge env)
       (set_if_truthy "Access-Control-Allow-Headers"
          (resolved_allowHeaders env request)
          (set_if_truthy "Access-Control-Allow-Methods" (var_allowMethods env)
             (common_headers env o res)))).

(** The three ways an invocation can end. *)
Inductive outcome_of (env : Env) (request : Request) (res : Response)
    (next : Next) (out : Outcome) : Prop :=
  | PassedThrough :
      no_origin request →
      evaluated out = res →
      next_calls out = [res] →
      final_response out = next res →
      outcome_of env request res next out
  | Simple o :
      has_origin request o → ¬ preflight request →
      evaluated out = simple_response env o res →
      next_calls out = [evaluated out] →
      final_response out = next (evaluated out) →
      outcome_of env request res next out
  | Preflight o :
      has_origin request o → preflight request →
      evaluated out = preflight_response env request o res →
      next_calls out = [] →
      final_response out = evaluated out →
      outcome_of env request res next out.

(** The value is still a list. *)
Definition is_array (v : option StringOrArray) : Prop := ∃ l, v = Some (Arr l).

(** Two values the guards of [main] cannot tell apart: equal, or both
    falsy. *)
Definition falsy_equal (a b : option StringOrArray) : Prop :=
  a = b ∨ (truthy a = false ∧ truthy b = false).

(** Closures that agree up to falsy values of the three header options. *)
Definition alike (e1 e2 : Env) : Prop :=
  var_expressify e1 = var_expressify e2 ∧
  var_credentials e1 = var_credentials e2 ∧
  var_origins e1 = var_origins e2 ∧
  var_maxAge e1 = var_maxAge e2 ∧
  falsy_equal (var_allowMethods e1) (var_allowMethods e2) ∧
  falsy_equal (var_allowHeaders e1) (var_allowHeaders e2) ∧
  falsy_equal (var_exposeHeaders e1) (var_exposeHeaders e2).

Definition alike_handlers (mw1 mw2 : Middleware) : Prop :=
  match mw1, mw2 with
  | ExpressStyle e1, ExpressStyle e2 => alike e1 e2
  | ContextStyle e1, ContextStyle e2 => alike e1 e2
  | _, _ => False
  end.

(** A header that the evaluator leaves as it found it. *)
Definition untouched (name : string) (job : Job) (out : Outcome) : Prop :=
  headers (evaluated out) !! name = headers (job_response job) !! name.

(** ** Requests and pipelines used as concrete instances *)

Definition blank : Response := {| headers := ∅; status := 200; body := None |}.

(** The downstream handler of the test suite: it writes the body. *)
Definition downstream : Next :=
  λ r, {| headers := headers r; status := status r; body := Some "{foo:bar}" |}.

Definition request_of (m : string) (hs : list (string * string)) : Request :=
  {| method := m; request_headers := list_to_map hs |}.

Definition job_of (request : Request) (res : Response) : Job :=
  {| job_request := request; job_response := res; job_next := downstream |}.

Definition get_plain : Job := job_of (request_of "GET" []) blank.

Definition get_empty_origin : Job :=
  job_of (request_of "GET" [("Origin", "")]) blank.

Definition get_koajs : Job :=
  job_of (request_of "GET" [("Origin", "http://koajs.com")]) blank.

Definition get_koajs_encoded : Job :=
  job_of (request_of "GET" [("Origin", "http://koajs.com")])
    (set_header "Vary" (Str "Accept-Encoding") blank).

Definition options_koajs : Job :=
  job_of (request_of "OPTIONS" [("Origin", "http://koajs.com")]) blank.

Definition preflight_put : Job :=
  job_of (request_of "OPTIONS"
            [("Origin", "http://koajs.com");
             ("Access-Control-Request-Method", "PUT")]) blank.

Definition preflight_asking (requested : string) : Job :=
  job_of (request_of "OPTIONS"
            [("Origin", "http://koajs.com");
             ("Access-Control-Request-Method", "PUT");
             ("Access-Control-Request-Headers", requested)]) blank.

Definition preflight_no_origin : Job :=
  job_of (request_of "OPTIONS" [("Access-Control-Request-Method", "PUT")])
    blank.

Definition with_origins (v : Property StringOrArray) (o : CorsOptions)
    : CorsOptions :=
  {| expressify := expressify o; origins := v;
     allowMethods := allowMethods o; allowHeaders := allowHeaders o;
     exposeHeaders := exposeHeaders o; credentials := credentials o;
     maxAge := maxAge o |}.

Definition with_allowMethods (v : Property StringOrArray) (o : CorsOptions)
    : CorsOptions :=
  {| expressify := expressify o; origins := origins o;
     allowMethods := v; allowHeaders := allowHeaders o;
     exposeHeaders := exposeHeaders o; credentials := credentials o;
     maxAge := maxAge o |}.

Definition with_allowHeaders (v : Property StringOrArray) (o : CorsOptions)
    : CorsOptions :=
  {| expressify := expressify o; origins := origins o;
     allowMethods := allowMethods o; allowHeaders := v;
     exposeHeaders := exposeHeaders o; credentials := credentials o;
     maxAge := maxAge o |}.

Definition with_exposeHeaders (v : Property StringOrArray) (o : CorsOptions)
    : CorsOptions :=
  {| expressify := expressify o; origins := origins o;
     allowMethods := allowMethods o; allowHeaders := allowHeaders o;
     exposeHeaders := v; credentials := credentials o;
     maxAge := maxAge o |}.

Definition with_credentials (v : Property bool) (o : CorsOptions)
    : CorsOptions :=
  {| expressify := expressify o; origins := origins o;
     allowMethods := allowMethods o; allowHeaders := allowHeaders o;
     exposeHeaders := exposeHeaders o; credentials := v;
     maxAge := maxAge o |}.

Definition two_origins : CorsOptions :=
  with_origins (Given (Some (Arr ["http://koajs.com"; "http://example.com"])))
    noOptions.

(** ** Further vocabulary: pipelines, header names, option setters *)

(** The handler as it stands after serving a pipeline. *)
Fixpoint handler_after (mw : Middleware) (jobs : list Job) : Middleware :=
  match jobs with
  | [] => mw
  | job :: jobs => handler_after (invoke mw job).1 jobs
  end.

(** The calling convention of a handler: [true] for the
    [(request, response, next)] one. *)
Definition is_express (mw : Middleware) : bool :=
  match mw with
  | ExpressStyle _ => true
  | ContextStyle _ => false
  end.

(** A preflight request that also carries a non-empty [Origin]: the only
    kind of request that reaches lines 67-71. *)
Definition cross_origin_preflight (request : Request) : Prop :=
  preflight request ∧ ∃ o, has_origin request o.

(** The header names [main] passes to [response.set] and
    [response.vary]. *)
Definition cors_header_names : list string :=
  [ "Vary";
    "Access-Control-Allow-Origin";
    "Access-Control-Allow-Credentials";
    "Access-Control-Expose-Headers";
    "Access-Control-Allow-Methods";
    "Access-Control-Allow-Headers";
    "Access-Control-Max-Age" ].

(** [Number.MAX_SAFE_INTEGER]: up to it every integer is a number of the
    source language and [String] prints its decimal digits. *)
Definition MAX_SAFE_INTEGER : Z := 9007199254740991.

Definition with_expressify (v : Property bool) (o : CorsOptions)
    : CorsOptions :=
  {| expressify := v; origins := origins o;
     allowMethods := allowMethods o; allowHeaders := allowHeaders o;
     exposeHeaders := exposeHeaders o; credentials := credentials o;
     maxAge := maxAge o |}.

Definition with_maxAge (v : Property Z) (o : CorsOptions) : CorsOptions :=
  {| expressify := expressify o; origins := origins o;
     allowMethods := allowMethods o; allowHeaders := allowHeaders o;
     exposeHeaders := exposeHeaders o; credentials := credentials o;
     maxAge := v |}.

(** A response that already carries a header the evaluator has no use
    for. *)
Definition typed : Response :=
  set_header "Content-Type" (Str "application/json") blank.

(** ** Basic facts *)

Lemma truthy_string_true s : truthy_string s = true ↔ s ≠ "".
Proof.
  unfold truthy_string. destruct (String.eqb_spec s ""); simpl; split; congruence.
Qed.

Lemma truthy_string_false s : truthy_string s = false ↔ s = "".
Proof.
  unfold truthy_string. destruct (String.eqb_spec s ""); simpl; split; congruence.
Qed.

Lemma string_length_zero s : (String.length s =? 0)%nat = negb (truthy_string s).
Proof. by destruct s. Qed.

Lemma is_preflight_spec request : is_preflight request = true ↔ preflight request.
Proof.
  unfold is_preflight, preflight. rewrite andb_true_iff.
  destruct (String.eqb_spec (method request) "OPTIONS") as [Hm|Hm].
  - destruct (Request_get request "Access-Control-Request-Method") as [m|]; simpl.
    + rewrite truthy_string_true. split.
      * intros [_ Hne]. eauto.
      * intros [_ (m' & [= <-] & Hne)]. done.
    + split; [intros [_ [=]] | intros [_ (m' & [=] & _)]].
  - split; [intros [[=] _] | intros [Heq _]; done].
Qed.

Lemma not_preflight_spec request : is_preflight request = false ↔ ¬ preflight request.
Proof.
  rewrite <- is_preflight_spec. by destruct (is_preflight request).
Qed.

(** ** [main], case by case *)

(** The guarded writes of [main], run on a world. *)
Lemma run_guarded_set name (v : option StringOrArray) w :
  match v with
  | Some x => when (truthy v) (Response_set name x)
  | None => mret tt
  end w
  = (tt, {| closure := closure w;
            response := set_if_truthy name v (response w);
            proceeded := proceeded w |}).
Proof. by destruct w, v as [[[|? ?]|?]|]. Qed.

Lemma run_credentials (c : bool) w :
  when c (Response_set "Access-Control-Allow-Credentials" (Str "true")) w
  = (tt, {| closure := closure w;
            response :=
              if c
              then set_header "Access-Control-Allow-Credentials" (Str "true")
                     (response w)
              else response w;
            proceeded := proceeded w |}).
Proof. by destruct w, c. Qed.

Lemma run_max_age (maxAge : option Z) w :
  match maxAge with
  | Some seconds =>
      when (truthy_number maxAge && (0 <? seconds))
        (Response_set "Access-Control-Max-Age" (Str (pretty seconds)))
  | None => mret tt
  end w
  = (tt, {| closure := closure w;
            response := set_max_age maxAge (response w);
            proceeded := proceeded w |}).
Proof. by destruct w, maxAge as [[|?|?]|]. Qed.

Lemma run_fallback request env r p :
  when (negb (truthy (var_allowHeaders env)))
    (assign_allowHeaders
       (Str <$> Request_get request "Access-Control-Request-Headers"))
    {| closure := env; response := r; proceeded := p |}
  = (tt, {| closure := set_allowHeaders (resolved_allowHeaders env request) env;
            response := r;
            proceeded := p |}).
Proof.
  unfold resolved_allowHeaders.
  by destruct env; cbn; destruct (truthy _).
Qed.

Lemma run_bind {A B} (m : M A) (f : A → M B) w a w' :
  m w = (a, w') → (m ≫= f) w = f a w'.
Proof. unfold mbind, M_bind. by intros ->. Qed.

(** One statement of [main]: run its first computation, keep the rest. *)
Ltac step :=
  erewrite run_bind by reflexivity; cbn [closure response proceeded].
Ltac step_with lem :=
  erewrite run_bind by apply lem; cbn [closure response proceeded].

Lemma main_no_origin request next w :
  no_origin request → main request next w = call next w.
Proof.
  unfold main. by intros [-> | ->].
Qed.

Lemma main_simple request next w o :
  has_origin request o → is_preflight request = false →
  main request next w =
    let r := set_if_truthy "Access-Control-Expose-Headers"
               (var_exposeHeaders (closure w))
               (common_headers (closure w) o (response w)) in
    (tt, {| closure := closure w;
            response := next r;
            proceeded := proceeded w ++ [r] |}).
Proof.
  intros [Hget Hne%truthy_string_true] Hpre. unfold main. rewrite Hget.
  rewrite string_length_zero, Hne. cbn [negb orb].
  unfold is_preflight in Hpre. rewrite <- negb_andb, Hpre. cbn [negb].
  do 4 step. step_with run_credentials.
  step. step_with run_guarded_set.
  reflexivity.
Qed.

Lemma main_preflight request next w o :
  has_origin request o → is_preflight request = true →
  main request next w =
    let allowHeaders := resolved_allowHeaders (closure w) request in
    (tt, {| closure := set_allowHeaders allowHeaders (closure w);
            response :=
              send 204 ""
                (set_max_age (var_maxAge (closure w))
                   (set_if_truthy "Access-Control-Allow-Headers" allowHeaders
                      (set_if_truthy "Access-Control-Allow-Methods"
                         (var_allowMethods (closure w))
                         (common_headers (closure w) o (response w)))));
            proceeded := proceeded w |}).
Proof.
  intros [Hget Hne%truthy_string_true] Hpre. unfold main. rewrite Hget.
  rewrite string_length_zero, Hne. cbn [negb orb].
  unfold is_preflight in Hpre. rewrite <- negb_andb, Hpre. cbn [negb].
  do 4 step. step_with run_credentials.
  step. step_with run_guarded_set.
  step. step_with run_fallback.
  step. step_with run_guarded_set.
  step. step_with run_max_age.
  reflexivity.
Qed.

(** ** One invocation *)

Lemma request_cases request :
  no_origin request ∨ ∃ o, has_origin request o.
Proof.
  unfold no_origin, has_origin.
  destruct (Request_get request "Origin") as [o|]; [|by left; left].
  destruct (decide (o = "")) as [->|Hne]; [by left; right | right; eauto].
Qed.

Lemma origin_exclusive request o : has_origin request o → ¬ no_origin request.
Proof. intros [Hget Hne] [Hno | Hno]; congruence. Qed.

Lemma run_main_no_origin env request res next :
  no_origin request →
  run_main env request res next
  = (env, {| final_response := next res; next_calls := [res] |}).
Proof. intros Hno. unfold run_main. by rewrite main_no_origin. Qed.

Lemma run_main_simple env request res next o :
  has_origin request o → is_preflight request = false →
  run_main env request res next
  = let r := set_if_truthy "Access-Control-Expose-Headers"
               (var_exposeHeaders env) (common_headers env o res) in
    (env, {| final_response := next r; next_calls := [r] |}).
Proof.
  intros Ho Hpre. unfold run_main. by rewrite (main_simple _ _ _ o).
Qed.

Lemma run_main_preflight env request res next o :
  has_origin request o → is_preflight request = true →
  run_main env request res next
  = let allowHeaders := resolved_allowHeaders env request in
    (set_allowHeaders allowHeaders env,
     {| final_response :=
          send 204 ""
            (set_max_age (var_maxAge env)
               (set_if_truthy "Access-Control-Allow-Headers" allowHeaders
                  (set_if_truthy "Access-Control-Allow-Methods"
                     (var_allowMethods env) (common_headers env o res))));
        next_calls := [] |}).
Proof.
  intros Ho Hpre. unfold run_main. by rewrite (main_preflight _ _ _ o).
Qed.

(** ** Header bookkeeping *)

Lemma headers_set_header name v r k :
  headers (set_header name v r) !! k
  = if decide (name = k) then Some v else headers r !! k.
Proof. apply lookup_insert. Qed.

Lemma headers_set_if_truthy name v r k :
  headers (set_if_truthy name v r) !! k
  = if decide (name = k) then (if truthy v then v else headers r !! k)
    else headers r !! k.
Proof.
  unfold set_if_truthy. destruct v as [x|]; [|by case_decide].
  destruct (truthy (Some x)); [apply headers_set_header | by case_decide].
Qed.

Lemma headers_set_max_age maxAge r k :
  "Access-Control-Max-Age" ≠ k →
  headers (set_max_age maxAge r) !! k = headers r !! k.
Proof.
  intros Hne. unfold set_max_age. destruct maxAge as [seconds|]; [|done].
  destruct (_ && _); [|done]. rewrite headers_set_header. by case_decide.
Qed.

Lemma headers_common env o r k :
  headers (common_headers env o r) !! k
  = if decide ("Access-Control-Allow-Credentials" = k)
    then (if var_credentials env then Some (Str "true") else headers r !! k)
    else if decide ("Access-Control-Allow-Origin" = k)
    then Some (default (Str o) (var_origins env))
    else if decide ("Vary" = k)
    then Some (Str (vary_value (headers r !! "Vary") "Origin"))
    else headers r !! k.
Proof.
  unfold common_headers.
  destruct (var_credentials env); rewrite !headers_set_header;
    repeat case_decide; by simplify_eq.
Qed.

Lemma status_set_if_truthy name v r : status (set_if_truthy name v r) = status r.
Proof. unfold set_if_truthy. by destruct v as [x|]; [destruct (truthy _)|]. Qed.

Lemma body_set_if_truthy name v r : body (set_if_truthy name v r) = body r.
Proof. unfold set_if_truthy. by destruct v as [x|]; [destruct (truthy _)|]. Qed.

Lemma status_common env o r : status (common_headers env o r) = status r.
Proof. unfold common_headers. by destruct (var_credentials env). Qed.

Lemma body_common env o r : body (common_headers env o r) = body r.
Proof. unfold common_headers. by destruct (var_credentials env). Qed.

(** ** The closure over the life of a handler *)

Lemma evolves_refl e : evolves e e.
Proof. by repeat split. Qed.

Lemma evolves_trans e1 e2 e3 : evolves e1 e2 → evolves e2 e3 → evolves e1 e3.
Proof.
  intros (?&?&?&?&?&?&Ht&Ha) (?&?&?&?&?&?&Ht'&Ha').
  repeat split; try congruence.
  - intros Htruthy. rewrite Ht', Ht; [done..|]. by rewrite Ht.
  - intros l Hl. eauto.
Qed.

Lemma evolves_run_main env request res next :
  evolves env (run_main env request res next).1.
Proof.
  destruct (request_cases request) as [Hno | [o Ho]].
  { rewrite run_main_no_origin by done. apply evolves_refl. }
  destruct (is_preflight request) eqn:Hpre.
  - rewrite (run_main_preflight _ _ _ _ o) by done. cbn.
    repeat split; cbn; unfold resolved_allowHeaders.
    + by intros ->.
    + intros l. destruct (truthy (var_allowHeaders env)); [done|].
      by destruct (Request_get _ _).
  - rewrite (run_main_simple _ _ _ _ o) by done. apply evolves_refl.
Qed.

Lemma env_of_invoke mw job :
  env_of (invoke mw job).1
  = (run_main (env_of mw) (job_request job) (job_response job)
       (job_next job)).1
  ∧ (invoke mw job).2
  = (run_main (env_of mw) (job_request job) (job_response job)
       (job_next job)).2.
Proof. destruct mw; cbn; by destruct (run_main _ _ _ _). Qed.

(** Every request of a pipeline is served by one run of [main], from a
    closure the handler can have evolved into. *)
Lemma serve_lookup mw jobs i job :
  jobs !! i = Some job →
  ∃ env, evolves (env_of mw) env ∧
    serve mw jobs !! i
    = Some (run_main env (job_request job) (job_response job)
              (job_next job)).2.
Proof.
  revert mw i. induction jobs as [|j jobs IH]; intros mw i Hjob; [done|].
  cbn [serve]. destruct (invoke mw j) as [mw' out] eqn:Hinv.
  destruct (env_of_invoke mw j) as [Henv Hout]. rewrite Hinv in Henv, Hout.
  cbn in Henv, Hout. destruct i as [|i]; cbn in Hjob |- *.
  - injection Hjob as ->. exists (env_of mw). split; [apply evolves_refl|].
    by rewrite Hout.
  - destruct (IH mw' i Hjob) as (env & Hev & Hserve). exists env.
    split; [|done]. eapply evolves_trans; [|done].
    rewrite Henv. apply evolves_run_main.
Qed.

(** ** What [cors] resolves *)

Lemma env_of_cors options : env_of (cors options) = cors_env options.
Proof. unfold cors. by destruct (truthy_bool _). Qed.

Lemma cors_origins options :
  var_origins (cors_env options) = configured options origins.
Proof. destruct options as [o|]; [|done]. cbn. by destruct (origins o). Qed.

Lemma cors_credentials options :
  var_credentials (cors_env options)
  = truthy_bool (configured options credentials).
Proof. destruct options as [o|]; [|done]. cbn. by destruct (credentials o). Qed.

Lemma cors_allowMethods_not_array options l :
  var_allowMethods (cors_env options) ≠ Some (Arr l).
Proof.
  destruct options as [o|]; [|done]. cbn.
  by destruct (allowMethods o) as [|[[?|?]|]].
Qed.

Lemma cors_exposeHeaders_not_array options l :
  var_exposeHeaders (cors_env options) ≠ Some (Arr l).
Proof.
  destruct options as [o|]; [|done]. cbn.
  by destruct (exposeHeaders o) as [|[[?|?]|]].
Qed.

Lemma cors_allowHeaders_not_array options l :
  var_allowHeaders (cors_env options) ≠ Some (Arr l).
Proof.
  destruct options as [o|]; [|done]. cbn.
  by destruct (allowHeaders o) as [|[[?|?]|]].
Qed.

(** ** The outcome of one invocation, by kind of request *)

Lemma run_main_outcome env request res next :
  outcome_of env request res next (run_main env request res next).2.
Proof.
  destruct (request_cases request) as [Hno | [o Ho]].
  { rewrite run_main_no_origin by done. by apply PassedThrough. }
  destruct (is_preflight request) eqn:Hpre.
  - rewrite (run_main_preflight _ _ _ _ o) by done.
    apply is_preflight_spec in Hpre. by apply (Preflight _ _ _ _ _ o).
  - rewrite (run_main_simple _ _ _ _ o) by done.
    apply not_preflight_spec in Hpre. by apply (Simple _ _ _ _ _ o).
Qed.

(** The same, for a request of a pipeline. *)
Lemma serve_outcome options jobs i job :
  jobs !! i = Some job →
  ∃ env out,
    evolves (cors_env options) env ∧
    serve (cors options) jobs !! i = Some out ∧
    outcome_of env (job_request job) (job_response job) (job_next job) out.
Proof.
  intros Hjob. destruct (serve_lookup (cors options) _ _ _ Hjob)
    as (env & Hev & Hserve).
  rewrite env_of_cors in Hev. eexists env, _.
  split_and!; [done..|]. apply run_main_outcome.
Qed.

Lemma has_origin_inj request o o' :
  has_origin request o → has_origin request o' → o = o'.
Proof. intros [H1 _] [H2 _]. congruence. Qed.

(** Headers of the evaluated response. *)
Lemma headers_simple env o res k :
  headers (simple_response env o res) !! k
  = if decide ("Access-Control-Expose-Headers" = k)
    then (if truthy (var_exposeHeaders env) then var_exposeHeaders env
          else headers res !! k)
    else headers (common_headers env o res) !! k.
Proof.
  unfold simple_response. rewrite headers_set_if_truthy.
  case_decide as Hk; [|done]. destruct (truthy _); [done|].
  rewrite headers_common. subst k. by repeat case_decide.
Qed.

Lemma headers_preflight env request o res k :
  k ≠ "Access-Control-Max-Age" →
  headers (preflight_response env request o res) !! k
  = if decide ("Access-Control-Allow-Headers" = k)
    then (if truthy (resolved_allowHeaders env request)
          then resolved_allowHeaders env request
          else headers res !! k)
    else if decide ("Access-Control-Allow-Methods" = k)
    then (if truthy (var_allowMethods env) then var_allowMethods env
          else headers res !! k)
    else headers (common_headers env o res) !! k.
Proof.
  intros Hk. unfold preflight_response, send. cbn [headers].
  rewrite headers_set_max_age by done. rewrite !headers_set_if_truthy.
  rewrite headers_common.
  repeat case_decide; simplify_eq; by repeat destruct (truthy _).
Qed.

(** ** Requests without an origin *)

(** C4: a request whose [Origin] header is absent or empty receives no
    mutation from the evaluator and the continuation is invoked exactly
    once: the one logged call hands over the incoming response itself, and
    the final response is whatever the continuation makes of it.  The empty
    header and the absent one are the two cases of [no_origin]. *)
Theorem C4_no_origin_passthrough options jobs i job :
  jobs !! i = Some job →
  no_origin (job_request job) →
  serve (cors options) jobs !! i
  = Some {| final_response := job_next job (job_response job);
            next_calls := [job_response job] |}.
Proof.
  intros Hjob Hno.
  destruct (serve_lookup (cors options) _ _ _ Hjob) as (env & _ & ->).
  by rewrite run_main_no_origin.
Qed.

Lemma C4_no_origin_passthrough_witness :
  serve (cors None) [get_koajs; get_plain; get_empty_origin] !! 1%nat
  = Some {| final_response := downstream blank; next_calls := [blank] |}
  ∧ serve (cors None) [get_koajs; get_plain; get_empty_origin] !! 2%nat
  = Some {| final_response := downstream blank; next_calls := [blank] |}.
Proof.
  split.
  - apply (C4_no_origin_passthrough None _ 1%nat get_plain);
      [reflexivity | left; reflexivity].
  - apply (C4_no_origin_passthrough None _ 2%nat get_empty_origin);
      [reflexivity | right; reflexivity].
Defined.

(** ** Requests with an origin *)

(** C5: on a request with a non-empty [Origin], the evaluated response
    carries [Access-Control-Allow-Origin] set to the configured [origins]
    value when the option is set, and to the request's own [Origin]
    otherwise; with [origins = "*"] it is ["*"] whatever the request's
    origin. *)
Theorem C5_allow_origin options jobs i job o :
  jobs !! i = Some job →
  has_origin (job_request job) o →
  ∃ out, serve (cors options) jobs !! i = Some out ∧
    headers (evaluated out) !! "Access-Control-Allow-Origin"
    = Some (match configured options origins with
            | Some value => value
            | None => Str o
            end) ∧
    (configured options origins = Some (Str "*") →
     headers (evaluated out) !! "Access-Control-Allow-Origin" = Some (Str "*")).
Proof.
  intros Hjob Ho.
  destruct (serve_outcome options _ _ _ Hjob) as (env & out & Hev & Hout & Hcase).
  exists out. split; [done|].
  assert (var_origins env = configured options origins) as Horigins.
  { destruct Hev as (_ & _ & -> & _). apply cors_origins. }
  assert (headers (evaluated out) !! "Access-Control-Allow-Origin"
          = Some (default (Str o) (configured options origins))) as Hacao.
  { destruct Hcase as [Hno|o' Ho' _ -> _ _|o' Ho' _ -> _ _].
    - by destruct (origin_exclusive _ _ Ho).
    - rewrite (has_origin_inj _ _ _ Ho Ho').
      rewrite headers_simple, headers_common, Horigins. by repeat case_decide.
    - rewrite (has_origin_inj _ _ _ Ho Ho').
      rewrite headers_preflight, headers_common, Horigins by done.
      by repeat case_decide. }
  split; [by rewrite Hacao; destruct (configured options origins)|].
  intros Hstar. by rewrite Hacao, Hstar.
Qed.

Lemma C5_allow_origin_witness :
  (∃ out, serve (cors None) [preflight_put; get_koajs] !! 1%nat = Some out ∧
     headers (evaluated out) !! "Access-Control-Allow-Origin"
     = Some (Str "http://koajs.com") ∧
     (configured None origins = Some (Str "*") →
      headers (evaluated out) !! "Access-Control-Allow-Origin"
      = Some (Str "*")))
  ∧ (∃ out,
       serve (cors (Some (with_origins (Given (Some (Str "*"))) noOptions)))
         [get_koajs] !! 0%nat = Some out ∧
       headers (evaluated out) !! "Access-Control-Allow-Origin"
       = Some (Str "*")).
Proof.
  split.
  - apply (C5_allow_origin None _ 1%nat get_koajs "http://koajs.com");
      [reflexivity | split; [reflexivity | discriminate]].
  - destruct (C5_allow_origin
                (Some (with_origins (Given (Some (Str "*"))) noOptions))
                [get_koajs] 0%nat get_koajs "http://koajs.com")
      as (out & Hout & _ & Hstar);
      [reflexivity | split; [reflexivity | discriminate] |].
    exists out. split; [exact Hout | apply Hstar; reflexivity].
Defined.

(** C6: on a request with a non-empty [Origin], [Origin] is appended to
    the response's [Vary] header and nothing that was there is overwritten:
    an absent [Vary] becomes ["Origin"], a [Vary] of ["Accept-Encoding"]
    becomes ["Accept-Encoding, Origin"], and in general the earlier value
    stays in front, followed by a comma, a space and [Origin]. *)
Theorem C6_vary_origin options jobs i job o :
  jobs !! i = Some job →
  has_origin (job_request job) o →
  ∃ out, serve (cors options) jobs !! i = Some out ∧
    (headers (job_response job) !! "Vary" = None →
     headers (evaluated out) !! "Vary" = Some (Str "Origin")) ∧
    (headers (job_response job) !! "Vary" = Some (Str "Accept-Encoding") →
     headers (evaluated out) !! "Vary" = Some (Str "Accept-Encoding, Origin")) ∧
    (∀ earlier, headers (job_response job) !! "Vary" = Some (Str earlier) →
     headers (evaluated out) !! "Vary" = Some (Str (earlier +:+ ", Origin"))).
Proof.
  intros Hjob Ho.
  destruct (serve_outcome options _ _ _ Hjob) as (env & out & Hev & Hout & Hcase).
  exists out. split; [done|].
  assert (headers (evaluated out) !! "Vary"
          = Some (Str (vary_value (headers (job_response job) !! "Vary")
                         "Origin"))) as Hvary.
  { destruct Hcase as [Hno|o' Ho' _ -> _ _|o' Ho' _ -> _ _].
    - by destruct (origin_exclusive _ _ Ho).
    - rewrite headers_simple, headers_common. by repeat case_decide.
    - rewrite headers_preflight, headers_common by done.
      by repeat case_decide. }
  rewrite Hvary. split_and!.
  - by intros ->.
  - by intros ->.
  - by intros earlier ->.
Qed.

Lemma C6_vary_origin_witness :
  (∃ out, serve (cors None) [get_koajs] !! 0%nat = Some out ∧
     headers (evaluated out) !! "Vary" = Some (Str "Origin"))
  ∧ (∃ out, serve (cors None) [get_koajs_encoded] !! 0%nat = Some out ∧
       headers (evaluated out) !! "Vary" = Some (Str "Accept-Encoding, Origin")).
Proof.
  split.
  - destruct (C6_vary_origin None [get_koajs] 0%nat get_koajs
                "http://koajs.com")
      as (out & Hout & Habsent & _);
      [reflexivity | split; [reflexivity | discriminate] |].
    exists out. split; [exact Hout | apply Habsent; reflexivity].
  - destruct (C6_vary_origin None [get_koajs_encoded] 0%nat get_koajs_encoded
                "http://koajs.com")
      as (out & Hout & _ & Hencoding & _);
      [reflexivity | split; [reflexivity | discriminate] |].
    exists out. split; [exact Hout | apply Hencoding; reflexivity].
Defined.

(** C7: on a request with a non-empty [Origin], simple or preflight alike:
    with [credentials: true] the evaluated response carries
    [Access-Control-Allow-Credentials] with the string ["true"]; with
    [credentials] false or unset the evaluator leaves that header as it
    found it, so that a response without it still has none. *)
Theorem C7_allow_credentials options jobs i job o :
  jobs !! i = Some job →
  has_origin (job_request job) o →
  ∃ out, serve (cors options) jobs !! i = Some out ∧
    (configured options credentials = Some true →
     headers (evaluated out) !! "Access-Control-Allow-Credentials"
     = Some (Str "true")) ∧
    (configured options credentials ≠ Some true →
     headers (evaluated out) !! "Access-Control-Allow-Credentials"
     = headers (job_response job) !! "Access-Control-Allow-Credentials") ∧
    (configured options credentials ≠ Some true →
     headers (job_response job) !! "Access-Control-Allow-Credentials" = None →
     headers (evaluated out) !! "Access-Control-Allow-Credentials" = None).
Proof.
  intros Hjob Ho.
  destruct (serve_outcome options _ _ _ Hjob) as (env & out & Hev & Hout & Hcase).
  exists out. split; [done|].
  assert (var_credentials env = truthy_bool (configured options credentials))
    as Hcred.
  { destruct Hev as (_ & -> & _). apply cors_credentials. }
  assert (headers (evaluated out) !! "Access-Control-Allow-Credentials"
          = if truthy_bool (configured options credentials)
            then Some (Str "true")
            else headers (job_response job)
                   !! "Access-Control-Allow-Credentials") as Hacac.
  { destruct Hcase as [Hno|o' Ho' _ -> _ _|o' Ho' _ -> _ _].
    - by destruct (origin_exclusive _ _ Ho).
    - rewrite headers_simple, headers_common, Hcred. by repeat case_decide.
    - rewrite headers_preflight, headers_common, Hcred by done.
      by repeat case_decide. }
  rewrite Hacac. split_and!.
  - by intros ->.
  - by destruct (configured options credentials) as [[]|].
  - intros Hoff <-. by destruct (configured options credentials) as [[]|].
Qed.

Lemma C7_allow_credentials_witness :
  (∃ out,
     serve (cors (Some (with_credentials (Given (Some true)) noOptions)))
       [get_koajs; preflight_put] !! 1%nat = Some out ∧
     headers (evaluated out) !! "Access-Control-Allow-Credentials"
     = Some (Str "true"))
  ∧ (∃ out, serve (cors None) [get_koajs] !! 0%nat = Some out ∧
       headers (evaluated out) !! "Access-Control-Allow-Credentials" = None).
Proof.
  split.
  - destruct (C7_allow_credentials
                (Some (with_credentials (Given (Some true)) noOptions))
                [get_koajs; preflight_put] 1%nat preflight_put
                "http://koajs.com")
      as (out & Hout & Hon & _);
      [reflexivity | split; [reflexivity | discriminate] |].
    exists out. split; [exact Hout | apply Hon; reflexivity].
  - destruct (C7_allow_credentials None [get_koajs] 0%nat get_koajs
                "http://koajs.com")
      as (out & Hout & _ & _ & Hoff);
      [reflexivity | split; [reflexivity | discriminate] |].
    exists out. split; [exact Hout | apply Hoff; [discriminate | reflexivity]].
Defined.

(** ** Preflight detection *)

(** A preflight request that carries no [Origin] takes the early exit of
    line 51: the continuation is invoked and the status stays what it
    was. *)
Lemma C3_preflight_without_origin :
  preflight (job_request preflight_no_origin) ∧
  ∃ out, serve (cors None) [preflight_no_origin] = [out] ∧
    next_calls out = [blank] ∧
    status (final_response out) = 200 ∧
    body (final_response out) ≠ Some "".
Proof.
  split.
  - split; [reflexivity|]. exists "PUT". by split.
  - eexists. split; [reflexivity|]. by split_and!.
Qed.

(** C3, amended: a request is a preflight when its method is [OPTIONS] and
    [Access-Control-Request-Method] is present and non-empty.  A preflight
    request with a non-empty [Origin] yields status 204 with an empty body
    and the continuation is not invoked.  A request that is not a preflight
    (an [OPTIONS] request without [Access-Control-Request-Method] included)
    invokes the continuation, once, on a response whose status and body the
    evaluator has left alone. *)
Theorem C3_preflight_branch options jobs i job :
  jobs !! i = Some job →
  ∃ out, serve (cors options) jobs !! i = Some out ∧
    (preflight (job_request job) →
     (∃ o, has_origin (job_request job) o) →
     status (final_response out) = 204 ∧
     body (final_response out) = Some "" ∧
     next_calls out = []) ∧
    (¬ preflight (job_request job) →
     ∃ r, next_calls out = [r] ∧
       final_response out = job_next job r ∧
       status r = status (job_response job) ∧
       body r = body (job_response job)).
Proof.
  intros Hjob.
  destruct (serve_outcome options _ _ _ Hjob) as (env & out & Hev & Hout & Hcase).
  exists out. split; [done|].
  destruct Hcase as [Hno Hev' Hcalls Hfinal
                    |o Ho Hpre Hev' Hcalls Hfinal
                    |o Ho Hpre Hev' Hcalls Hfinal].
  - split.
    + intros _ [o Ho]. by destruct (origin_exclusive _ _ Ho).
    + intros _. exists (job_response job). by rewrite Hcalls, Hfinal.
  - split; [done|]. intros _. exists (evaluated out).
    rewrite Hcalls, Hfinal, Hev'. unfold simple_response.
    by rewrite status_set_if_truthy, body_set_if_truthy, status_common,
      body_common.
  - split; [|done]. intros _ _. by rewrite Hfinal, Hev', Hcalls.
Qed.

Lemma C3_preflight_branch_witness :
  (∃ out, serve (cors None) [get_koajs; preflight_put] !! 1%nat = Some out ∧
     status (final_response out) = 204 ∧
     body (final_response out) = Some "" ∧
     next_calls out = [])
  ∧ (∃ out, serve (cors None) [options_koajs] !! 0%nat = Some out ∧
       ∃ r, next_calls out = [r] ∧ final_response out = downstream r ∧
         status r = 200 ∧ body r = None).
Proof.
  split.
  - destruct (C3_preflight_branch None [get_koajs; preflight_put] 1%nat
                preflight_put) as (out & Hout & Hpre & _); [reflexivity|].
    exists out. split; [exact Hout|]. apply Hpre.
    + split; [reflexivity|]. exists "PUT". split; [reflexivity | discriminate].
    + exists "http://koajs.com". split; [reflexivity | discriminate].
  - destruct (C3_preflight_branch None [options_koajs] 0%nat options_koajs)
      as (out & Hout & _ & Hsimple); [reflexivity|].
    exists out. split; [exact Hout|]. apply Hsimple.
    intros [_ (m & Hm & _)]. discriminate Hm.
Defined.

(** ** The defaults merge *)

Lemma cors_allowMethods_undefined o :
  allowMethods o = Given None → var_allowMethods (cors_env (Some o)) = None.
Proof. cbn. by intros ->. Qed.

Lemma cors_allowMethods_omitted o :
  allowMethods o = Omitted →
  var_allowMethods (cors_env (Some o))
  = Some (Str "GET,HEAD,PATCH,PUT,POST,DELETE").
Proof. cbn. by intros ->. Qed.

(** [Access-Control-Allow-Methods] on a preflight, from the closure. *)
Lemma preflight_allowMethods options jobs i job o :
  jobs !! i = Some job →
  has_origin (job_request job) o →
  preflight (job_request job) →
  ∃ out, serve (cors options) jobs !! i = Some out ∧
    headers (evaluated out) !! "Access-Control-Allow-Methods"
    = if truthy (var_allowMethods (cors_env options))
      then var_allowMethods (cors_env options)
      else headers (job_response job) !! "Access-Control-Allow-Methods".
Proof.
  intros Hjob Ho Hpre.
  destruct (serve_outcome options _ _ _ Hjob) as (env & out & Hev & Hout & Hcase).
  exists out. split; [done|].
  destruct Hev as (_ & _ & _ & Hmethods & _).
  destruct Hcase as [Hno|o' Ho' Hsimple|o' Ho' _ -> _ _]; [| done |].
  - by destruct (origin_exclusive _ _ Ho).
  - rewrite headers_preflight, Hmethods by done. by repeat case_decide.
Qed.

(** C10: an options object that holds the key [allowMethods] with the
    value [undefined] overrides the default: no
    [Access-Control-Allow-Methods] header is written on a preflight (the
    header is as the incoming response had it, absent when it was absent).
    Leaving the key out yields the default
    [GET,HEAD,PATCH,PUT,POST,DELETE]. *)
Theorem C10_allowMethods_undefined_overrides o jobs i job origin :
  jobs !! i = Some job →
  has_origin (job_request job) origin →
  preflight (job_request job) →
  (allowMethods o = Given None →
   var_allowMethods (cors_env (Some o)) = None ∧
   ∃ out, serve (cors (Some o)) jobs !! i = Some out ∧
     headers (evaluated out) !! "Access-Control-Allow-Methods"
     = headers (job_response job) !! "Access-Control-Allow-Methods") ∧
  (allowMethods o = Omitted →
   var_allowMethods (cors_env (Some o))
   = Some (Str "GET,HEAD,PATCH,PUT,POST,DELETE") ∧
   ∃ out, serve (cors (Some o)) jobs !! i = Some out ∧
     headers (evaluated out) !! "Access-Control-Allow-Methods"
     = Some (Str "GET,HEAD,PATCH,PUT,POST,DELETE")).
Proof.
  intros Hjob Ho Hpre.
  destruct (preflight_allowMethods (Some o) _ _ _ _ Hjob Ho Hpre)
    as (out & Hout & Hacam).
  split; intros Hkey.
  - split; [by apply cors_allowMethods_undefined|]. exists out.
    split; [done|]. by rewrite Hacam, cors_allowMethods_undefined.
  - split; [by apply cors_allowMethods_omitted|]. exists out.
    split; [done|]. by rewrite Hacam, cors_allowMethods_omitted.
Qed.

Lemma C10_allowMethods_undefined_overrides_witness :
  (∃ out,
     serve (cors (Some (with_allowMethods (Given None) noOptions)))
       [preflight_put] !! 0%nat = Some out ∧
     headers (evaluated out) !! "Access-Control-Allow-Methods" = None)
  ∧ (∃ out, serve (cors (Some noOptions)) [preflight_put] !! 0%nat = Some out ∧
       headers (evaluated out) !! "Access-Control-Allow-Methods"
       = Some (Str "GET,HEAD,PATCH,PUT,POST,DELETE")).
Proof.
  split.
  - destruct (C10_allowMethods_undefined_overrides
                (with_allowMethods (Given None) noOptions)
                [preflight_put] 0%nat preflight_put "http://koajs.com")
      as [Hundefined _].
    + reflexivity.
    + split; [reflexivity | discriminate].
    + split; [reflexivity|]. exists "PUT". split; [reflexivity | discriminate].
    + destruct Hundefined as (_ & out & Hout & Hacam); [reflexivity|].
      exists out. split; [exact Hout | exact Hacam].
  - destruct (C10_allowMethods_undefined_overrides noOptions
                [preflight_put] 0%nat preflight_put "http://koajs.com")
      as [_ Homitted].
    + reflexivity.
    + split; [reflexivity | discriminate].
    + split; [reflexivity|]. exists "PUT". split; [reflexivity | discriminate].
    + destruct Homitted as (_ & out & Hout & Hacam); [reflexivity|].
      exists out. split; [exact Hout | exact Hacam].
Defined.

(** ** Normalisation of the options *)

Lemma headers_max_age_array maxAge r l :
  headers (set_max_age maxAge r) !! "Access-Control-Max-Age" = Some (Arr l) →
  headers r !! "Access-Control-Max-Age" = Some (Arr l).
Proof.
  unfold set_max_age. destruct maxAge as [seconds|]; [|done].
  destruct (_ && _); [|done]. rewrite headers_set_header. by case_decide.
Qed.

(** A list among the headers of an evaluated response was either there
    before, or is the [origins] variable. *)
Lemma evaluated_array env request res next out k l :
  outcome_of env request res next out →
  ¬ is_array (var_allowMethods env) →
  ¬ is_array (var_allowHeaders env) →
  ¬ is_array (var_exposeHeaders env) →
  headers (evaluated out) !! k = Some (Arr l) →
  headers res !! k = Some (Arr l)
  ∨ (k = "Access-Control-Allow-Origin" ∧ var_origins env = Some (Arr l)).
Proof.
  intros Hcase Ham Hah Heh.
  assert (∀ o, headers (common_headers env o res) !! k = Some (Arr l) →
    headers res !! k = Some (Arr l)
    ∨ (k = "Access-Control-Allow-Origin" ∧ var_origins env = Some (Arr l)))
    as Hcommon.
  { intros o. rewrite headers_common. repeat case_decide; subst.
    - destruct (var_credentials env); [done | by left].
    - destruct (var_origins env) as [v|]; [|done]. intros [= ->]. by right.
    - done.
    - by left. }
  destruct Hcase as [_ -> _ _|o _ _ -> _ _|o _ _ -> _ _]; [by left | |].
  - rewrite headers_simple. case_decide; [|by apply Hcommon].
    destruct (truthy _); [|by left]. intros Heq. destruct Heh. by exists l.
  - destruct (decide (k = "Access-Control-Max-Age")) as [->|Hk].
    { unfold preflight_response, send. cbn [headers].
      intros Hl%headers_max_age_array. revert Hl.
      rewrite !headers_set_if_truthy. repeat case_decide; try done.
      by apply Hcommon. }
    rewrite headers_preflight by done. repeat case_decide.
    + destruct (truthy _) eqn:Htruthy; [|by left].
      unfold resolved_allowHeaders in *.
      destruct (truthy (var_allowHeaders env)).
      * intros Heq. destruct Hah. by exists l.
      * by destruct (Request_get _ _).
    + destruct (truthy _); [|by left]. intros Heq. destruct Ham. by exists l.
    + by apply Hcommon.
Qed.

(** C2, as the code has it: lines 42-44 join [exposeHeaders],
    [allowMethods] and [allowHeaders], but not [origins], which the
    interface types [string | string[]] like them.  A list given for
    [origins] stays a list in the closure and reaches [response.set]
    un-joined, as the value of [Access-Control-Allow-Origin]. *)
Lemma C2_origins_list_not_joined :
  var_origins (cors_env (Some two_origins))
  = Some (Arr ["http://koajs.com"; "http://example.com"]) ∧
  ∃ out, serve (cors (Some two_origins)) [get_koajs] = [out] ∧
    headers (evaluated out) !! "Access-Control-Allow-Origin"
    = Some (Arr ["http://koajs.com"; "http://example.com"]).
Proof.
  split; [reflexivity|]. eexists. split; reflexivity.
Qed.

(** X18: at construction every list given for [allowMethods],
    [allowHeaders] or [exposeHeaders] is joined with commas into one
    string, and [credentials] becomes the boolean [!!credentials].  Hence a
    list among the headers of an evaluated response was already on the
    incoming response, unless it is [Access-Control-Allow-Origin] holding a
    list given for [origins], the one list-typed option lines 42-44 do not
    join. *)
Theorem list_options_are_joined options :
  (∀ l, configured options allowMethods = Some (Arr l) →
        var_allowMethods (cors_env options) = Some (Str (join l))) ∧
  (∀ l, configured options allowHeaders = Some (Arr l) →
        var_allowHeaders (cors_env options) = Some (Str (join l))) ∧
  (∀ l, configured options exposeHeaders = Some (Arr l) →
        var_exposeHeaders (cors_env options) = Some (Str (join l))) ∧
  (var_credentials (cors_env options) = true
   ↔ configured options credentials = Some true) ∧
  (∀ jobs i job out name l,
     jobs !! i = Some job →
     serve (cors options) jobs !! i = Some out →
     headers (evaluated out) !! name = Some (Arr l) →
     headers (job_response job) !! name = Some (Arr l)
     ∨ (name = "Access-Control-Allow-Origin"
        ∧ configured options origins = Some (Arr l))).
Proof.
  split_and!.
  - destruct options as [o|]; [|done]. cbn. intros l.
    destruct (allowMethods o); [done|]. cbn. by intros ->.
  - destruct options as [o|]; [|done]. cbn. intros l.
    destruct (allowHeaders o); [done|]. cbn. by intros ->.
  - destruct options as [o|]; [|done]. cbn. intros l.
    destruct (exposeHeaders o); [done|]. cbn. by intros ->.
  - rewrite cors_credentials.
    destruct (configured options credentials) as [[]|]; cbn; naive_solver.
  - intros jobs i job out name l Hjob Hserve Hlist.
    destruct (serve_outcome options _ _ _ Hjob)
      as (env & out' & Hev & Hout & Hcase).
    rewrite Hserve in Hout. injection Hout as <-.
    destruct Hev as (_ & _ & Horigins & Hmethods & _ & Hexpose & _ & Harray).
    rewrite <- cors_origins, <- Horigins.
    eapply evaluated_array; [done | | | | done].
    + rewrite Hmethods. intros [l' Hl'].
      by destruct (cors_allowMethods_not_array options l').
    + intros [l' Hl'%Harray].
      by destruct (cors_allowHeaders_not_array options l').
    + rewrite Hexpose. intros [l' Hl'].
      by destruct (cors_exposeHeaders_not_array options l').
Qed.

Lemma list_options_are_joined_witness :
  var_allowMethods
    (cors_env (Some (with_allowMethods (Given (Some (Arr ["GET"; "POST"])))
                       noOptions)))
  = Some (Str "GET,POST")
  ∧ (headers blank !! "Access-Control-Allow-Origin"
     = Some (Arr ["http://koajs.com"; "http://example.com"])
     ∨ ("Access-Control-Allow-Origin" = "Access-Control-Allow-Origin"
        ∧ configured (Some two_origins) origins
          = Some (Arr ["http://koajs.com"; "http://example.com"]))).
Proof.
  split.
  - destruct (list_options_are_joined
                (Some (with_allowMethods (Given (Some (Arr ["GET"; "POST"])))
                         noOptions))) as (Hmethods & _).
    apply (Hmethods ["GET"; "POST"]). reflexivity.
  - destruct (list_options_are_joined (Some two_origins))
      as (_ & _ & _ & _ & Hlists).
    apply (Hlists [get_koajs] 0%nat get_koajs
             {| final_response :=
                  downstream
                    (set_header "Access-Control-Allow-Origin"
                       (Arr ["http://koajs.com"; "http://example.com"])
                       (set_header "Vary" (Str "Origin") blank));
                next_calls :=
                  [set_header "Access-Control-Allow-Origin"
                     (Arr ["http://koajs.com"; "http://example.com"])
                     (set_header "Vary" (Str "Origin") blank)] |});
      reflexivity.
Defined.

(** ** Falsy option values *)

Lemma falsy_equal_refl a : falsy_equal a a.
Proof. by left. Qed.

Lemma set_if_truthy_falsy_equal name a b r :
  falsy_equal a b → set_if_truthy name a r = set_if_truthy name b r.
Proof.
  intros [-> | [Ha Hb]]; [done|]. unfold set_if_truthy.
  rewrite Ha, Hb. by destruct a, b.
Qed.

Lemma resolved_falsy_equal e1 e2 request :
  falsy_equal (var_allowHeaders e1) (var_allowHeaders e2) →
  resolved_allowHeaders e1 request = resolved_allowHeaders e2 request.
Proof.
  unfold resolved_allowHeaders. intros [-> | [-> ->]]; done.
Qed.

Lemma common_headers_alike e1 e2 o r :
  alike e1 e2 → common_headers e1 o r = common_headers e2 o r.
Proof.
  intros (_ & Hcred & Horigins & _). unfold common_headers.
  by rewrite Hcred, Horigins.
Qed.

Lemma run_main_alike e1 e2 request res next :
  alike e1 e2 →
  alike (run_main e1 request res next).1 (run_main e2 request res next).1
  ∧ (run_main e1 request res next).2 = (run_main e2 request res next).2.
Proof.
  intros Halike.
  destruct (request_cases request) as [Hno | [o Ho]].
  { by rewrite !run_main_no_origin. }
  pose proof Halike as (Hex & Hcred & Horigins & Hage & Ham & Hah & Heh).
  destruct (is_preflight request) eqn:Hpre.
  - rewrite !(run_main_preflight _ _ _ _ o) by done. cbn. split.
    + repeat split; try done. cbn.
      rewrite (resolved_falsy_equal e1 e2) by done. apply falsy_equal_refl.
    + rewrite (resolved_falsy_equal e1 e2) by done.
      rewrite (common_headers_alike e1 e2) by done.
      rewrite (set_if_truthy_falsy_equal _ _ _ _ Ham).
      by rewrite Hage.
  - rewrite !(run_main_simple _ _ _ _ o) by done. cbn. split; [done|].
    rewrite (common_headers_alike e1 e2) by done.
    by rewrite (set_if_truthy_falsy_equal _ _ _ _ Heh).
Qed.

Lemma serve_alike mw1 mw2 jobs :
  alike_handlers mw1 mw2 → serve mw1 jobs = serve mw2 jobs.
Proof.
  revert mw1 mw2. induction jobs as [|job jobs IH]; intros mw1 mw2 Hmw; [done|].
  cbn [serve].
  destruct mw1 as [e1|e1], mw2 as [e2|e2]; try done; cbn in Hmw |- *;
    destruct (run_main_alike e1 e2 (job_request job) (job_response job)
                (job_next job) Hmw) as [Henv Hout];
    destruct (run_main e1 _ _ _) as [e1' out1];
    destruct (run_main e2 _ _ _) as [e2' out2];
    cbn in Henv, Hout; subst out2; f_equal; by apply IH.
Qed.

Lemma cors_alike o1 o2 :
  alike (cors_env o1) (cors_env o2) → alike_handlers (cors o1) (cors o2).
Proof.
  intros Halike. pose proof Halike as (Hex & _). unfold cors.
  rewrite Hex. by destruct (truthy_bool _).
Qed.

Lemma untouched_allowMethods options jobs i job out :
  truthy (var_allowMethods (cors_env options)) = false →
  jobs !! i = Some job →
  serve (cors options) jobs !! i = Some out →
  untouched "Access-Control-Allow-Methods" job out.
Proof.
  intros Hfalsy Hjob Hserve.
  destruct (serve_outcome options _ _ _ Hjob)
    as (env & out' & Hev & Hout & Hcase).
  rewrite Hserve in Hout. injection Hout as <-.
  destruct Hev as (_ & _ & _ & Hmethods & _). unfold untouched.
  destruct Hcase as [_ -> _ _|o _ _ -> _ _|o _ _ -> _ _]; [done | |].
  - rewrite headers_simple, headers_common. by repeat case_decide.
  - rewrite headers_preflight, headers_common, Hmethods, Hfalsy by done.
    by repeat case_decide.
Qed.

Lemma untouched_exposeHeaders options jobs i job out :
  truthy (var_exposeHeaders (cors_env options)) = false →
  jobs !! i = Some job →
  serve (cors options) jobs !! i = Some out →
  untouched "Access-Control-Expose-Headers" job out.
Proof.
  intros Hfalsy Hjob Hserve.
  destruct (serve_outcome options _ _ _ Hjob)
    as (env & out' & Hev & Hout & Hcase).
  rewrite Hserve in Hout. injection Hout as <-.
  destruct Hev as (_ & _ & _ & _ & _ & Hexpose & _). unfold untouched.
  destruct Hcase as [_ -> _ _|o _ _ -> _ _|o _ _ -> _ _]; [done | |].
  - rewrite headers_simple, Hexpose, Hfalsy. by repeat case_decide.
  - rewrite headers_preflight, headers_common by done.
    by repeat case_decide.
Qed.

(** [Access-Control-Allow-Headers] on the first request a handler serves. *)
Lemma first_preflight_allowHeaders options job jobs o :
  has_origin (job_request job) o →
  preflight (job_request job) →
  ∃ out, serve (cors options) (job :: jobs) !! 0%nat = Some out ∧
    headers (evaluated out) !! "Access-Control-Allow-Headers"
    = if truthy (resolved_allowHeaders (cors_env options) (job_request job))
      then resolved_allowHeaders (cors_env options) (job_request job)
      else headers (job_response job) !! "Access-Control-Allow-Headers".
Proof.
  intros Ho Hpre. cbn [serve].
  destruct (env_of_invoke (cors options) job) as [_ Hout].
  destruct (invoke (cors options) job) as [mw out]. cbn in Hout |- *.
  exists out. split; [done|]. rewrite Hout, env_of_cors.
  destruct (run_main_outcome (cors_env options) (job_request job)
              (job_response job) (job_next job))
    as [Hno|o' _ Hsimple|o' _ _ -> _ _]; [| done |].
  - by destruct (origin_exclusive _ _ Ho).
  - rewrite headers_preflight by done. by repeat case_decide.
Qed.

Lemma allowHeaders_never_empty options jobs i job out :
  jobs !! i = Some job →
  serve (cors options) jobs !! i = Some out →
  headers (evaluated out) !! "Access-Control-Allow-Headers" = Some (Str "") →
  headers (job_response job) !! "Access-Control-Allow-Headers" = Some (Str "").
Proof.
  intros Hjob Hserve.
  destruct (serve_outcome options _ _ _ Hjob)
    as (env & out' & Hev & Hout & Hcase).
  rewrite Hserve in Hout. injection Hout as <-.
  destruct Hcase as [_ -> _ _|o _ _ -> _ _|o _ _ -> _ _]; [done | |].
  - rewrite headers_simple, headers_common. by repeat case_decide.
  - rewrite headers_preflight by done. repeat case_decide; try done.
    destruct (truthy _) eqn:Htruthy; [|done]. intros Heq.
    by rewrite Heq in Htruthy.
Qed.

(** X19: an empty list for [allowMethods], [allowHeaders] or
    [exposeHeaders] is accepted at construction, where it is joined into
    the empty string, and from then on the handler answers every pipeline
    exactly as the handler built with that key set to [undefined] does;
    [Access-Control-Allow-Methods], respectively
    [Access-Control-Expose-Headers], is left as the evaluator found it; for
    [allowHeaders] the empty string is never written, and on the first
    request the handler serves, a preflight with a non-empty [Origin] that
    asks for headers receives the headers it asks for. *)
Theorem empty_list_is_no_value o :
  (allowMethods o = Given (Some (Arr [])) →
   var_allowMethods (cors_env (Some o)) = Some (Str "") ∧
   (∀ jobs, serve (cors (Some o)) jobs
            = serve (cors (Some (with_allowMethods (Given None) o))) jobs) ∧
   (∀ jobs i job out,
      jobs !! i = Some job → serve (cors (Some o)) jobs !! i = Some out →
      untouched "Access-Control-Allow-Methods" job out)) ∧
  (exposeHeaders o = Given (Some (Arr [])) →
   var_exposeHeaders (cors_env (Some o)) = Some (Str "") ∧
   (∀ jobs, serve (cors (Some o)) jobs
            = serve (cors (Some (with_exposeHeaders (Given None) o))) jobs) ∧
   (∀ jobs i job out,
      jobs !! i = Some job → serve (cors (Some o)) jobs !! i = Some out →
      untouched "Access-Control-Expose-Headers" job out)) ∧
  (allowHeaders o = Given (Some (Arr [])) →
   var_allowHeaders (cors_env (Some o)) = Some (Str "") ∧
   (∀ jobs, serve (cors (Some o)) jobs
            = serve (cors (Some (with_allowHeaders (Given None) o))) jobs) ∧
   (∀ jobs i job out,
      jobs !! i = Some job → serve (cors (Some o)) jobs !! i = Some out →
      headers (evaluated out) !! "Access-Control-Allow-Headers"
      = Some (Str "") →
      headers (job_response job) !! "Access-Control-Allow-Headers"
      = Some (Str "")) ∧
   (∀ job jobs origin requested,
      has_origin (job_request job) origin →
      preflight (job_request job) →
      Request_get (job_request job) "Access-Control-Request-Headers"
      = Some requested →
      requested ≠ "" →
      ∃ out, serve (cors (Some o)) (job :: jobs) !! 0%nat = Some out ∧
        headers (evaluated out) !! "Access-Control-Allow-Headers"
        = Some (Str requested))).
Proof.
  split_and!; intros Hkey.
  - assert (var_allowMethods (cors_env (Some o)) = Some (Str "")) as Hvar.
    { cbn. by rewrite Hkey. }
    split_and!; [done | |].
    + intros jobs. apply serve_alike, cors_alike.
      repeat split; try apply falsy_equal_refl. right. cbn. by rewrite Hkey.
    + intros jobs i job out. apply untouched_allowMethods. by rewrite Hvar.
  - assert (var_exposeHeaders (cors_env (Some o)) = Some (Str "")) as Hvar.
    { cbn. by rewrite Hkey. }
    split_and!; [done | |].
    + intros jobs. apply serve_alike, cors_alike.
      repeat split; try apply falsy_equal_refl. right. cbn. by rewrite Hkey.
    + intros jobs i job out. apply untouched_exposeHeaders. by rewrite Hvar.
  - assert (var_allowHeaders (cors_env (Some o)) = Some (Str "")) as Hvar.
    { cbn. by rewrite Hkey. }
    split_and!; [done | | |].
    + intros jobs. apply serve_alike, cors_alike.
      repeat split; try apply falsy_equal_refl. right. cbn. by rewrite Hkey.
    + intros jobs i job out. apply allowHeaders_never_empty.
    + intros job jobs origin requested Ho Hpre Hget Hne.
      destruct (first_preflight_allowHeaders (Some o) job jobs origin Ho Hpre)
        as (out & Hout & Hacah).
      exists out. split; [done|]. rewrite Hacah.
      unfold resolved_allowHeaders. rewrite Hvar, Hget. cbn.
      by apply truthy_string_true in Hne as ->.
Qed.

Lemma empty_list_is_no_value_witness :
  (∃ out,
     serve (cors (Some (with_allowHeaders (Given (Some (Arr []))) noOptions)))
       [preflight_asking "X-PINGOTHER"] !! 0%nat = Some out ∧
     headers (evaluated out) !! "Access-Control-Allow-Headers"
     = Some (Str "X-PINGOTHER"))
  ∧ serve (cors (Some (with_allowMethods (Given (Some (Arr []))) noOptions)))
      [preflight_put]
    = serve (cors (Some (with_allowMethods (Given None)
                           (with_allowMethods (Given (Some (Arr [])))
                              noOptions))))
        [preflight_put]
  ∧ var_exposeHeaders
      (cors_env (Some (with_exposeHeaders (Given (Some (Arr []))) noOptions)))
    = Some (Str "").
Proof.
  split_and!.
  - destruct (empty_list_is_no_value
                (with_allowHeaders (Given (Some (Arr []))) noOptions))
      as (_ & _ & Hheaders).
    destruct Hheaders as (_ & _ & _ & Hfallback); [reflexivity|].
    apply (Hfallback (preflight_asking "X-PINGOTHER") [] "http://koajs.com"
             "X-PINGOTHER").
    + split; [reflexivity | discriminate].
    + split; [reflexivity|]. exists "PUT". split; [reflexivity | discriminate].
    + reflexivity.
    + discriminate.
  - destruct (empty_list_is_no_value
                (with_allowMethods (Given (Some (Arr []))) noOptions))
      as (Hmethods & _).
    destruct Hmethods as (_ & Hsame & _); [reflexivity|]. apply Hsame.
  - destruct (empty_list_is_no_value
                (with_exposeHeaders (Given (Some (Arr []))) noOptions))
      as (_ & Hexpose & _).
    destruct Hexpose as (Hvar & _); [reflexivity|]. exact Hvar.
Defined.

(** ** The [allowHeaders] variable across requests *)

(** C1, as the code has it: line 68 assigns the request's
    [Access-Control-Request-Headers] to the closure variable [allowHeaders],
    so a preflight changes the closure, and the same request is answered
    differently depending on the requests served before it. *)
Theorem C1_allowHeaders_assignment_persists :
  var_allowHeaders (env_of (cors None)) = None ∧
  var_allowHeaders (env_of (invoke (cors None) (preflight_asking "X-First")).1)
  = Some (Str "X-First") ∧
  (∃ out,
     serve (cors None) [preflight_asking "X-Second"] !! 0%nat = Some out ∧
     headers (final_response out) !! "Access-Control-Allow-Headers"
     = Some (Str "X-Second")) ∧
  (∃ out,
     serve (cors None) [preflight_asking "X-First"; preflight_asking "X-Second"]
       !! 1%nat = Some out ∧
     headers (final_response out) !! "Access-Control-Allow-Headers"
     = Some (Str "X-First")).
Proof.
  split_and!; [reflexivity | vm_compute; reflexivity | |];
    eexists; split; vm_compute; reflexivity.
Qed.

(** C8, as the code has it: with [allowHeaders] not configured, a preflight
    that carries no [Access-Control-Request-Headers] still receives
    [Access-Control-Allow-Headers], holding the value an earlier preflight
    had asked for. *)
Theorem C8_allowHeaders_from_earlier_request :
  configured None allowHeaders = None ∧
  Request_get (job_request preflight_put) "Access-Control-Request-Headers"
  = None ∧
  (∃ out, serve (cors None) [preflight_put] !! 0%nat = Some out ∧
     headers (final_response out) !! "Access-Control-Allow-Headers" = None) ∧
  (∃ out,
     serve (cors None) [preflight_asking "X-First"; preflight_put] !! 1%nat
     = Some out ∧
     headers (final_response out) !! "Access-Control-Allow-Headers"
     = Some (Str "X-First")).
Proof.
  split_and!; [reflexivity | vm_compute; reflexivity | |];
    eexists; split; vm_compute; reflexivity.
Qed.

(** C9, as the code has it: with [allowHeaders: []] the request-header
    fallback is taken by the first preflight only.  Line 68 stores what
    that request asked for in the closure, and a later preflight asking for
    other headers is answered with the stored value instead of its own. *)
Theorem C9_empty_allowHeaders_fallback_taken_once :
  var_allowHeaders
    (cors_env (Some (with_allowHeaders (Given (Some (Arr []))) noOptions)))
  = Some (Str "") ∧
  Request_get (job_request (preflight_asking "X-Second"))
    "Access-Control-Request-Headers" = Some "X-Second" ∧
  (∃ out,
     serve (cors (Some (with_allowHeaders (Given (Some (Arr []))) noOptions)))
       [preflight_asking "X-Second"] !! 0%nat = Some out ∧
     headers (final_response out) !! "Access-Control-Allow-Headers"
     = Some (Str "X-Second")) ∧
  (∃ out,
     serve (cors (Some (with_allowHeaders (Given (Some (Arr []))) noOptions)))
       [preflight_asking "X-First"; preflight_asking "X-Second"] !! 1%nat
     = Some out ∧
     headers (final_response out) !! "Access-Control-Allow-Headers"
     = Some (Str "X-First")).
Proof.
  split_and!; [reflexivity | vm_compute; reflexivity | |];
    eexists; split; vm_compute; reflexivity.
Qed.

(** ** What [cors] resolves, continued *)

Lemma cors_exposeHeaders options :
  var_exposeHeaders (cors_env options)
  = join_if_array (configured options exposeHeaders).
Proof. destruct options as [o|]; [|done]. cbn. by destruct (exposeHeaders o). Qed.

Lemma cors_allowHeaders options :
  var_allowHeaders (cors_env options)
  = join_if_array (configured options allowHeaders).
Proof. destruct options as [o|]; [|done]. cbn. by destruct (allowHeaders o). Qed.

Lemma cors_maxAge_configured options seconds :
  configured options maxAge = Some seconds →
  var_maxAge (cors_env options) = Some seconds.
Proof.
  destruct options as [o|]; [|done]. cbn. by destruct (maxAge o).
Qed.

Lemma cors_maxAge_unconfigured options :
  configured options maxAge = None →
  var_maxAge (cors_env options) = None
  ∨ var_maxAge (cors_env options) = Some 0.
Proof.
  destruct options as [o|]; [|by right]. cbn.
  destruct (maxAge o); cbn; [by right | intros ->; by left].
Qed.

(** ** Headers of the two answers, continued *)

Lemma headers_preflight_max_age env request o res :
  headers (preflight_response env request o res) !! "Access-Control-Max-Age"
  = match var_maxAge env with
    | Some seconds =>
        if truthy_number (Some seconds) && (0 <? seconds)
        then Some (Str (pretty seconds))
        else headers res !! "Access-Control-Max-Age"
    | None => headers res !! "Access-Control-Max-Age"
    end.
Proof.
  assert (headers
            (set_if_truthy "Access-Control-Allow-Headers"
               (resolved_allowHeaders env request)
               (set_if_truthy "Access-Control-Allow-Methods"
                  (var_allowMethods env) (common_headers env o res)))
            !! "Access-Control-Max-Age"
          = headers res !! "Access-Control-Max-Age") as Hinner.
  { rewrite !headers_set_if_truthy, headers_common. by repeat case_decide. }
  unfold preflight_response, send, set_max_age. cbn [headers].
  destruct (var_maxAge env) as [seconds|]; [|done].
  destruct (_ && _); [|done]. rewrite headers_set_header. by case_decide.
Qed.

(** Headers the two answers leave alone. *)
Lemma headers_simple_frame env o res k :
  k ≠ "Vary" → k ≠ "Access-Control-Allow-Origin" →
  k ≠ "Access-Control-Allow-Credentials" →
  k ≠ "Access-Control-Expose-Headers" →
  headers (simple_response env o res) !! k = headers res !! k.
Proof.
  intros ? ? ? ?. rewrite headers_simple, headers_common.
  by repeat case_decide.
Qed.

Lemma headers_preflight_frame env request o res k :
  k ≠ "Vary" → k ≠ "Access-Control-Allow-Origin" →
  k ≠ "Access-Control-Allow-Credentials" →
  k ≠ "Access-Control-Allow-Methods" →
  k ≠ "Access-Control-Allow-Headers" →
  k ≠ "Access-Control-Max-Age" →
  headers (preflight_response env request o res) !! k = headers res !! k.
Proof.
  intros ? ? ? ? ? ?. rewrite headers_preflight, headers_common by done.
  by repeat case_decide.
Qed.

(** The outcome of a request of a pipeline, when the request is known not
    to be a cross-origin preflight. *)
Lemma serve_not_preflight options jobs i job :
  jobs !! i = Some job →
  ¬ preflight (job_request job) →
  ∃ env out,
    evolves (cors_env options) env ∧
    serve (cors options) jobs !! i = Some out ∧
    (evaluated out = job_response job
     ∨ ∃ o, evaluated out = simple_response env o (job_response job)).
Proof.
  intros Hjob Hsimple.
  destruct (serve_outcome options _ _ _ Hjob)
    as (env & out & Hev & Hout & Hcase).
  exists env, out. split_and!; [done..|].
  destruct Hcase as [_ -> _ _|o _ _ -> _ _|o _ Hpre _ _ _];
    [by left | right; by exists o | done].
Qed.

(** The same for a cross-origin preflight. *)
Lemma serve_preflight options jobs i job o :
  jobs !! i = Some job →
  has_origin (job_request job) o →
  preflight (job_request job) →
  ∃ env out,
    evolves (cors_env options) env ∧
    serve (cors options) jobs !! i = Some out ∧
    evaluated out
    = preflight_response env (job_request job) o (job_response job).
Proof.
  intros Hjob Ho Hpre.
  destruct (serve_outcome options _ _ _ Hjob)
    as (env & out & Hev & Hout & Hcase).
  exists env, out. split_and!; [done..|].
  destruct Hcase as [Hno|o' _ Hsimple|o' Ho' _ -> _ _]; [| done |].
  - by destruct (origin_exclusive _ _ Ho).
  - by rewrite (has_origin_inj _ _ _ Ho Ho').
Qed.

(** ** Preflight-only headers *)

(** X1: on a preflight request with a non-empty [Origin],
    [Access-Control-Max-Age] is written exactly when [maxAge] is configured
    greater than zero, and then holds its decimal digits; a [maxAge] that is
    zero, negative, [undefined] or not given leaves the header as it was. *)
Theorem max_age_on_preflight options jobs i job o :
  jobs !! i = Some job →
  has_origin (job_request job) o →
  preflight (job_request job) →
  ∃ out, serve (cors options) jobs !! i = Some out ∧
    (∀ seconds,
       configured options maxAge = Some seconds →
       0 < seconds ≤ MAX_SAFE_INTEGER →
       headers (evaluated out) !! "Access-Control-Max-Age"
       = Some (Str (pretty seconds))) ∧
    ((∀ seconds, configured options maxAge = Some seconds → seconds ≤ 0) →
     untouched "Access-Control-Max-Age" job out).
Proof.
  intros Hjob Ho Hpre.
  destruct (serve_preflight options _ _ _ _ Hjob Ho Hpre)
    as (env & out & Hev & Hout & Heval).
  exists out. split; [done|].
  destruct Hev as (_ & _ & _ & _ & Hage & _).
  unfold untouched. rewrite Heval, headers_preflight_max_age, Hage.
  split.
  - intros seconds Hconf [Hpos _].
    rewrite (cors_maxAge_configured _ _ Hconf). cbn.
    destruct (Z.eqb_spec seconds 0); [lia|].
    by destruct (Z.ltb_spec 0 seconds); [|lia].
  - intros Hoff.
    destruct (configured options maxAge) as [seconds|] eqn:Hconf.
    + rewrite (cors_maxAge_configured _ _ Hconf). cbn.
      specialize (Hoff seconds eq_refl).
      destruct (Z.ltb_spec 0 seconds); [lia|]. by rewrite andb_false_r.
    + by destruct (cors_maxAge_unconfigured _ Hconf) as [-> | ->].
Qed.

Lemma max_age_on_preflight_witness :
  (∃ out,
     serve (cors (Some (with_maxAge (Given (Some 3600)) noOptions)))
       [get_koajs; preflight_put] !! 1%nat = Some out ∧
     headers (evaluated out) !! "Access-Control-Max-Age" = Some (Str "3600"))
  ∧ (∃ out,
       serve (cors (Some (with_maxAge (Given (Some (-5))) noOptions)))
         [preflight_put] !! 0%nat = Some out ∧
       headers (evaluated out) !! "Access-Control-Max-Age" = None).
Proof.
  split.
  - destruct (max_age_on_preflight
                (Some (with_maxAge (Given (Some 3600)) noOptions))
                [get_koajs; preflight_put] 1%nat preflight_put
                "http://koajs.com") as (out & Hout & Hset & _).
    + reflexivity.
    + split; [reflexivity | discriminate].
    + split; [reflexivity|]. exists "PUT". split; [reflexivity | discriminate].
    + exists out. split; [exact Hout|].
      apply (Hset 3600); [reflexivity | unfold MAX_SAFE_INTEGER; lia].
  - destruct (max_age_on_preflight
                (Some (with_maxAge (Given (Some (-5))) noOptions))
                [preflight_put] 0%nat preflight_put "http://koajs.com")
      as (out & Hout & _ & Hoff).
    + reflexivity.
    + split; [reflexivity | discriminate].
    + split; [reflexivity|]. exists "PUT". split; [reflexivity | discriminate].
    + exists out. split; [exact Hout|]. apply Hoff.
      intros seconds [= <-]. lia.
Defined.

(** X2: a request that is not a preflight never has
    [Access-Control-Allow-Methods], [Access-Control-Allow-Headers] or
    [Access-Control-Max-Age] written, whatever the options: the three
    headers are as the incoming response had them. *)
Theorem simple_request_keeps_preflight_headers options jobs i job :
  jobs !! i = Some job →
  ¬ preflight (job_request job) →
  ∃ out, serve (cors options) jobs !! i = Some out ∧
    untouched "Access-Control-Allow-Methods" job out ∧
    untouched "Access-Control-Allow-Headers" job out ∧
    untouched "Access-Control-Max-Age" job out.
Proof.
  intros Hjob Hsimple.
  destruct (serve_not_preflight options _ _ _ Hjob Hsimple)
    as (env & out & _ & Hout & Heval).
  exists out. split; [done|]. unfold untouched.
  destruct Heval as [-> | [o ->]]; [done|].
  by rewrite !headers_simple_frame.
Qed.

Lemma simple_request_keeps_preflight_headers_witness :
  ∃ out,
    serve (cors (Some (with_maxAge (Given (Some 3600)) noOptions)))
      [preflight_asking "X-PINGOTHER"; get_koajs] !! 1%nat = Some out ∧
    untouched "Access-Control-Allow-Methods" get_koajs out ∧
    untouched "Access-Control-Allow-Headers" get_koajs out ∧
    untouched "Access-Control-Max-Age" get_koajs out.
Proof.
  apply (simple_request_keeps_preflight_headers
           (Some (with_maxAge (Given (Some 3600)) noOptions))
           [preflight_asking "X-PINGOTHER"; get_koajs] 1%nat get_koajs).
  - reflexivity.
  - intros [Hmethod _]. discriminate Hmethod.
Defined.

(** ** Expose-Headers and Allow-Methods *)

(** X3: on a request with a non-empty [Origin] that is not a preflight,
    [Access-Control-Expose-Headers] receives the configured
    [exposeHeaders]: the string as given, or the list joined with commas;
    a value that is missing or normalises to the empty string writes
    nothing.  On a preflight the header is never written. *)
Theorem expose_headers_on_simple_requests options jobs i job o :
  jobs !! i = Some job →
  has_origin (job_request job) o →
  ∃ out, serve (cors options) jobs !! i = Some out ∧
    (¬ preflight (job_request job) →
     (∀ s, configured options exposeHeaders = Some (Str s) → s ≠ "" →
           headers (evaluated out) !! "Access-Control-Expose-Headers"
           = Some (Str s)) ∧
     (∀ l, configured options exposeHeaders = Some (Arr l) → join l ≠ "" →
           headers (evaluated out) !! "Access-Control-Expose-Headers"
           = Some (Str (join l))) ∧
     (truthy (join_if_array (configured options exposeHeaders)) = false →
      untouched "Access-Control-Expose-Headers" job out)) ∧
    (preflight (job_request job) →
     untouched "Access-Control-Expose-Headers" job out).
Proof.
  intros Hjob Ho.
  destruct (serve_outcome options _ _ _ Hjob)
    as (env & out & Hev & Hout & Hcase).
  exists out. split; [done|].
  assert (var_exposeHeaders env
          = join_if_array (configured options exposeHeaders)) as Hexpose.
  { destruct Hev as (_ & _ & _ & _ & _ & -> & _). apply cors_exposeHeaders. }
  unfold untouched.
  destruct Hcase as [Hno|o' _ Hsimple -> _ _|o' _ Hpre -> _ _].
  - by destruct (origin_exclusive _ _ Ho).
  - split; [intros _ | done].
    rewrite headers_simple, Hexpose.
    case_decide; [|done]. split_and!.
    + intros s -> Hs%truthy_string_true. cbn. by rewrite Hs.
    + intros l -> Hl%truthy_string_true. cbn. by rewrite Hl.
    + by intros ->.
  - split; [done | intros _]. by rewrite headers_preflight_frame.
Qed.

Lemma expose_headers_on_simple_requests_witness :
  (∃ out,
     serve (cors (Some (with_exposeHeaders
                          (Given (Some (Arr ["content-length"; "x-header"])))
                          noOptions)))
       [get_koajs] !! 0%nat = Some out ∧
     headers (evaluated out) !! "Access-Control-Expose-Headers"
     = Some (Str "content-length,x-header"))
  ∧ (∃ out,
       serve (cors (Some (with_exposeHeaders
                            (Given (Some (Str "content-length"))) noOptions)))
         [preflight_put] !! 0%nat = Some out ∧
       untouched "Access-Control-Expose-Headers" preflight_put out).
Proof.
  split.
  - destruct (expose_headers_on_simple_requests
                (Some (with_exposeHeaders
                         (Given (Some (Arr ["content-length"; "x-header"])))
                         noOptions))
                [get_koajs] 0%nat get_koajs "http://koajs.com")
      as (out & Hout & Hsimple & _);
      [reflexivity | split; [reflexivity | discriminate] |].
    exists out. split; [exact Hout|].
    destruct Hsimple as (_ & Hlist & _).
    { intros [Hmethod _]. discriminate Hmethod. }
    apply (Hlist ["content-length"; "x-header"]); [reflexivity | discriminate].
  - destruct (expose_headers_on_simple_requests
                (Some (with_exposeHeaders
                         (Given (Some (Str "content-length"))) noOptions))
                [preflight_put] 0%nat preflight_put "http://koajs.com")
      as (out & Hout & _ & Hpre);
      [reflexivity | split; [reflexivity | discriminate] |].
    exists out. split; [exact Hout|]. apply Hpre.
    split; [reflexivity|]. exists "PUT". split; [reflexivity | discriminate].
Defined.

(** X4: on a preflight request with a non-empty [Origin],
    [Access-Control-Allow-Methods] receives the configured [allowMethods]
    when that is a non-empty string or a list whose join is non-empty (the
    list joined with commas), and the default
    [GET,HEAD,PATCH,PUT,POST,DELETE] when no options object is passed. *)
Theorem allow_methods_on_preflight options jobs i job o :
  jobs !! i = Some job →
  has_origin (job_request job) o →
  preflight (job_request job) →
  ∃ out, serve (cors options) jobs !! i = Some out ∧
    (∀ s, configured options allowMethods = Some (Str s) → s ≠ "" →
          headers (evaluated out) !! "Access-Control-Allow-Methods"
          = Some (Str s)) ∧
    (∀ l, configured options allowMethods = Some (Arr l) → join l ≠ "" →
          headers (evaluated out) !! "Access-Control-Allow-Methods"
          = Some (Str (join l))) ∧
    (options = None →
     headers (evaluated out) !! "Access-Control-Allow-Methods"
     = Some (Str "GET,HEAD,PATCH,PUT,POST,DELETE")).
Proof.
  intros Hjob Ho Hpre.
  destruct (preflight_allowMethods options _ _ _ _ Hjob Ho Hpre)
    as (out & Hout & Hacam).
  exists out. split; [done|]. rewrite Hacam. split_and!.
  - intros s Hconf Hs%truthy_string_true.
    destruct options as [opts|]; [|done]. cbn in Hconf |- *.
    destruct (allowMethods opts) as [|v]; [done|]. cbn in Hconf |- *.
    subst v. cbn. by rewrite Hs.
  - intros l Hconf Hl%truthy_string_true.
    destruct options as [opts|]; [|done]. cbn in Hconf |- *.
    destruct (allowMethods opts) as [|v]; [done|]. cbn in Hconf |- *.
    subst v. cbn. by rewrite Hl.
  - by intros ->.
Qed.

Lemma allow_methods_on_preflight_witness :
  ∃ out,
    serve (cors (Some (with_allowMethods (Given (Some (Arr ["GET"; "POST"])))
                         noOptions)))
      [preflight_put] !! 0%nat = Some out ∧
    headers (evaluated out) !! "Access-Control-Allow-Methods"
    = Some (Str "GET,POST").
Proof.
  destruct (allow_methods_on_preflight
              (Some (with_allowMethods (Given (Some (Arr ["GET"; "POST"])))
                       noOptions))
              [preflight_put] 0%nat preflight_put "http://koajs.com")
    as (out & Hout & _ & Hlist & _).
  - reflexivity.
  - split; [reflexivity | discriminate].
  - split; [reflexivity|]. exists "PUT". split; [reflexivity | discriminate].
  - exists out. split; [exact Hout|].
    apply (Hlist ["GET"; "POST"]); [reflexivity | discriminate].
Defined.

(** ** Headers outside the evaluator's concern *)

(** X5: whatever the options and the request, a response header whose
    name is not one of the seven the evaluator writes is left exactly as
    the incoming response had it. *)
Theorem other_headers_untouched options jobs i job k :
  jobs !! i = Some job →
  k ∉ cors_header_names →
  ∃ out, serve (cors options) jobs !! i = Some out ∧ untouched k job out.
Proof.
  intros Hjob Hk.
  destruct (serve_outcome options _ _ _ Hjob)
    as (env & out & Hev & Hout & Hcase).
  exists out. split; [done|]. unfold untouched.
  unfold cors_header_names in Hk. rewrite !not_elem_of_cons in Hk.
  destruct Hk as (? & ? & ? & ? & ? & ? & ? & _).
  destruct Hcase as [_ -> _ _|o _ _ -> _ _|o _ _ -> _ _]; [done | |].
  - by apply headers_simple_frame.
  - by apply headers_preflight_frame.
Qed.

Lemma other_headers_untouched_witness :
  ∃ out,
    serve (cors None) [job_of (job_request preflight_put) typed] !! 0%nat
    = Some out ∧
    headers (evaluated out) !! "Content-Type" = Some (Str "application/json").
Proof.
  destruct (other_headers_untouched None
              [job_of (job_request preflight_put) typed] 0%nat
              (job_of (job_request preflight_put) typed) "Content-Type")
    as (out & Hout & Hsame).
  - reflexivity.
  - apply (bool_decide_unpack _). vm_compute. exact I.
  - exists out. split; [exact Hout | exact Hsame].
Defined.

(** ** The two calling conventions *)

(** X6: the calling convention carries no policy: from the same closure,
    the handler taking [(request, response, next)] and the one taking
    [(context, next)] answer every pipeline alike. *)
Theorem calling_conventions_agree env jobs :
  serve (ExpressStyle env) jobs = serve (ContextStyle env) jobs.
Proof.
  revert env. induction jobs as [|job jobs IH]; intros env; [done|].
  cbn. destruct (run_main env _ _ _) as [env' out]. by rewrite IH.
Qed.

Lemma is_express_invoke mw job : is_express (invoke mw job).1 = is_express mw.
Proof. destruct mw; cbn; by destruct (run_main _ _ _ _). Qed.

Lemma is_express_handler_after mw jobs :
  is_express (handler_after mw jobs) = is_express mw.
Proof.
  revert mw. induction jobs as [|job jobs IH]; intros mw; [done|].
  cbn. by rewrite IH, is_express_invoke.
Qed.

(** X7: [expressify] selects the calling convention through the defaults
    merge: without an options object, with the key left out or with
    [expressify: true] the handler takes [(request, response, next)]; with
    [expressify: false], and also with the key present but [undefined], it
    takes [(context, next)].  Serving requests never changes the
    convention. *)
Theorem expressify_selects_convention o jobs :
  is_express (handler_after (cors None) jobs) = true ∧
  (expressify o = Omitted ∨ expressify o = Given (Some true) →
   is_express (handler_after (cors (Some o)) jobs) = true) ∧
  (expressify o = Given (Some false) ∨ expressify o = Given None →
   is_express (handler_after (cors (Some o)) jobs) = false).
Proof.
  rewrite !is_express_handler_after. split_and!; [done | |].
  - unfold cors. cbn. by intros [-> | ->].
  - unfold cors. cbn. by intros [-> | ->].
Qed.

Lemma expressify_selects_convention_witness :
  is_express
    (handler_after (cors (Some (with_expressify (Given None) noOptions)))
       [preflight_put; get_koajs]) = false.
Proof.
  destruct (expressify_selects_convention
              (with_expressify (Given None) noOptions)
              [preflight_put; get_koajs]) as (_ & _ & Hcontext).
  apply Hcontext. right. reflexivity.
Defined.

(** ** The closure over a pipeline *)

Lemma evolves_invoke mw job : evolves (env_of mw) (env_of (invoke mw job).1).
Proof.
  destruct (env_of_invoke mw job) as [-> _]. apply evolves_run_main.
Qed.

Lemma evolves_handler_after mw jobs :
  evolves (env_of mw) (env_of (handler_after mw jobs)).
Proof.
  revert mw. induction jobs as [|job jobs IH]; intros mw;
    [apply evolves_refl|].
  cbn. eapply evolves_trans; [apply evolves_invoke | apply IH].
Qed.

Lemma middleware_eq mw mw' :
  is_express mw = is_express mw' → env_of mw = env_of mw' → mw = mw'.
Proof. destruct mw, mw'; cbn; congruence. Qed.

Lemma set_allowHeaders_same env : set_allowHeaders (var_allowHeaders env) env = env.
Proof. by destruct env. Qed.

(** X8: of the seven variables [cors] resolves, [main] assigns to
    [allowHeaders] alone: after any pipeline the other six hold what they
    held at construction, and [allowHeaders] never holds a list unless it
    did at the start. *)
Theorem configuration_is_constant options jobs :
  let before := cors_env options in
  let after := env_of (handler_after (cors options) jobs) in
  var_expressify after = var_expressify before ∧
  var_credentials after = var_credentials before ∧
  var_origins after = var_origins before ∧
  var_allowMethods after = var_allowMethods before ∧
  var_maxAge after = var_maxAge before ∧
  var_exposeHeaders after = var_exposeHeaders before ∧
  ¬ is_array (var_allowHeaders after).
Proof.
  cbn zeta.
  pose proof (evolves_handler_after (cors options) jobs) as Hev.
  rewrite env_of_cors in Hev.
  destruct Hev as (? & ? & ? & ? & ? & ? & _ & Harray).
  split_and!; try done.
  intros [l Hl%Harray]. by destruct (cors_allowHeaders_not_array options l).
Qed.

(** X9: a request that is not a preflight with a non-empty [Origin]
    leaves the handler exactly as it was, closure included. *)
Theorem only_preflight_changes_handler mw job :
  ¬ cross_origin_preflight (job_request job) →
  (invoke mw job).1 = mw.
Proof.
  intros Hnot. apply middleware_eq; [apply is_express_invoke|].
  destruct (env_of_invoke mw job) as [-> _].
  destruct (request_cases (job_request job)) as [Hno | [o Ho]].
  { by rewrite run_main_no_origin. }
  destruct (is_preflight (job_request job)) eqn:Hpre.
  - destruct Hnot. split; [by apply is_preflight_spec | by exists o].
  - by rewrite (run_main_simple _ _ _ _ o).
Qed.

Lemma only_preflight_changes_handler_witness :
  (invoke (cors None) preflight_no_origin).1 = cors None
  ∧ (invoke (cors None) options_koajs).1 = cors None.
Proof.
  split.
  - apply (only_preflight_changes_handler (cors None) preflight_no_origin).
    intros [_ [o [Hget _]]]. discriminate Hget.
  - apply (only_preflight_changes_handler (cors None) options_koajs).
    intros [[_ (m & Hm & _)] _]. discriminate Hm.
Defined.

(** ** What the history of a handler can and cannot change *)

Lemma common_headers_evolves e e' o r :
  evolves e e' → common_headers e' o r = common_headers e o r.
Proof.
  intros (_ & Hcred & Horigins & _). unfold common_headers.
  by rewrite Hcred, Horigins.
Qed.

Lemma run_main_evolved_simple e e' request res next :
  evolves e e' →
  is_preflight request = false →
  (run_main e' request res next).2 = (run_main e request res next).2.
Proof.
  intros Hev Hpre.
  destruct (request_cases request) as [Hno | [o Ho]].
  { by rewrite !run_main_no_origin. }
  rewrite !(run_main_simple _ _ _ _ o) by done. cbn.
  rewrite (common_headers_evolves e e') by done.
  destruct Hev as (_ & _ & _ & _ & _ & Hexpose & _). by rewrite Hexpose.
Qed.

Lemma run_main_truthy_allowHeaders env request res next :
  truthy (var_allowHeaders env) = true →
  (run_main env request res next).1 = env.
Proof.
  intros Htruthy.
  destruct (request_cases request) as [Hno | [o Ho]].
  { by rewrite run_main_no_origin. }
  destruct (is_preflight request) eqn:Hpre.
  - rewrite (run_main_preflight _ _ _ _ o) by done. cbn.
    unfold resolved_allowHeaders. rewrite Htruthy.
    apply set_allowHeaders_same.
  - by rewrite (run_main_simple _ _ _ _ o).
Qed.

Lemma invoke_truthy_allowHeaders mw job :
  truthy (var_allowHeaders (env_of mw)) = true → (invoke mw job).1 = mw.
Proof.
  intros Htruthy. apply middleware_eq; [apply is_express_invoke|].
  destruct (env_of_invoke mw job) as [-> _].
  by apply run_main_truthy_allowHeaders.
Qed.

Lemma serve_fixed_handler mw jobs i job :
  (∀ job, (invoke mw job).1 = mw) →
  jobs !! i = Some job →
  serve mw jobs !! i = Some (invoke mw job).2.
Proof.
  intros Hfixed. revert i. induction jobs as [|j jobs IH]; intros i Hjob;
    [done|].
  cbn [serve]. specialize (Hfixed j) as Hj.
  destruct (invoke mw j) as [mw' out] eqn:Hinv. cbn in Hj. subst mw'.
  destruct i as [|i]; cbn in Hjob |- *.
  - injection Hjob as <-. by rewrite Hinv.
  - by apply IH.
Qed.

Lemma handler_after_fixed mw jobs :
  (∀ job, (invoke mw job).1 = mw) → handler_after mw jobs = mw.
Proof.
  intros Hfixed. induction jobs as [|j jobs IH]; [done|].
  cbn. by rewrite Hfixed.
Qed.

(** X10: a handler built with an [allowHeaders] that normalises to a
    non-empty string keeps no state: serving any pipeline leaves it as
    built, and every request is answered as if it were the first one the
    handler serves. *)
Theorem configured_allowHeaders_keeps_handler_stateless options jobs i job :
  truthy (join_if_array (configured options allowHeaders)) = true →
  jobs !! i = Some job →
  handler_after (cors options) jobs = cors options ∧
  serve (cors options) jobs !! i = Some (invoke (cors options) job).2.
Proof.
  intros Htruthy Hjob.
  assert (∀ job, (invoke (cors options) job).1 = cors options) as Hfixed.
  { intros j. apply invoke_truthy_allowHeaders.
    by rewrite env_of_cors, cors_allowHeaders. }
  split; [by apply handler_after_fixed | by apply serve_fixed_handler].
Qed.

Lemma configured_allowHeaders_keeps_handler_stateless_witness :
  handler_after
    (cors (Some (with_allowHeaders (Given (Some (Str "X-PINGOTHER")))
                   noOptions)))
    [preflight_asking "X-First"; preflight_put]
  = cors (Some (with_allowHeaders (Given (Some (Str "X-PINGOTHER")))
                  noOptions)).
Proof.
  apply (configured_allowHeaders_keeps_handler_stateless
           (Some (with_allowHeaders (Given (Some (Str "X-PINGOTHER")))
                    noOptions))
           [preflight_asking "X-First"; preflight_put] 1%nat preflight_put);
    reflexivity.
Defined.

(** X11: with [allowHeaders] configured to a value that normalises to a
    non-empty string, every preflight request with a non-empty [Origin]
    receives that value in [Access-Control-Allow-Headers], whatever the
    request asks for and whatever was served before. *)
Theorem configured_allowHeaders_on_preflight options jobs i job o :
  truthy (join_if_array (configured options allowHeaders)) = true →
  jobs !! i = Some job →
  has_origin (job_request job) o →
  preflight (job_request job) →
  ∃ out, serve (cors options) jobs !! i = Some out ∧
    headers (evaluated out) !! "Access-Control-Allow-Headers"
    = join_if_array (configured options allowHeaders).
Proof.
  intros Htruthy Hjob Ho Hpre.
  destruct (serve_preflight options _ _ _ _ Hjob Ho Hpre)
    as (env & out & Hev & Hout & Heval).
  exists out. split; [done|].
  rewrite <- cors_allowHeaders in Htruthy |- *.
  destruct Hev as (_ & _ & _ & _ & _ & _ & Hkeep & _).
  specialize (Hkeep Htruthy).
  rewrite Heval, headers_preflight by done.
  unfold resolved_allowHeaders. rewrite Hkeep, Htruthy.
  repeat case_decide; try done. by rewrite Htruthy.
Qed.

Lemma configured_allowHeaders_on_preflight_witness :
  ∃ out,
    serve (cors (Some (with_allowHeaders
                         (Given (Some (Arr ["X-One"; "X-Two"]))) noOptions)))
      [preflight_asking "X-First"; preflight_asking "X-Second"] !! 1%nat
    = Some out ∧
    headers (evaluated out) !! "Access-Control-Allow-Headers"
    = Some (Str "X-One,X-Two").
Proof.
  apply (configured_allowHeaders_on_preflight
           (Some (with_allowHeaders
                    (Given (Some (Arr ["X-One"; "X-Two"]))) noOptions))
           [preflight_asking "X-First"; preflight_asking "X-Second"] 1%nat
           (preflight_asking "X-Second") "http://koajs.com").
  - reflexivity.
  - reflexivity.
  - split; [reflexivity | discriminate].
  - split; [reflexivity|]. exists "PUT". split; [reflexivity | discriminate].
Defined.

(** X12: a request that is not a preflight is answered independently of
    what the handler served before: its outcome in any pipeline is the
    outcome the freshly built handler gives it. *)
Theorem non_preflight_outcome_ignores_history options jobs i job :
  jobs !! i = Some job →
  ¬ preflight (job_request job) →
  serve (cors options) jobs !! i = Some (invoke (cors options) job).2.
Proof.
  intros Hjob Hsimple%not_preflight_spec.
  destruct (serve_lookup (cors options) _ _ _ Hjob) as (env & Hev & ->).
  destruct (env_of_invoke (cors options) job) as [_ ->].
  f_equal. by apply run_main_evolved_simple.
Qed.

Lemma non_preflight_outcome_ignores_history_witness :
  serve (cors None) [preflight_asking "X-First"; get_koajs] !! 1%nat
  = Some (invoke (cors None) get_koajs).2.
Proof.
  apply (non_preflight_outcome_ignores_history None
           [preflight_asking "X-First"; get_koajs] 1%nat get_koajs).
  - reflexivity.
  - intros [Hmethod _]. discriminate Hmethod.
Defined.

Lemma headers_preflight_evolves e e' request o res k :
  evolves e e' →
  k ≠ "Access-Control-Allow-Headers" →
  headers (preflight_response e' request o res) !! k
  = headers (preflight_response e request o res) !! k.
Proof.
  intros Hev Hk. pose proof (common_headers_evolves _ _ o res Hev) as Hcommon.
  destruct Hev as (_ & _ & _ & Hmethods & Hage & _).
  destruct (decide (k = "Access-Control-Max-Age")) as [->|Hage'].
  { by rewrite !headers_preflight_max_age, Hage. }
  rewrite !headers_preflight by done. rewrite Hcommon, Hmethods.
  by case_decide.
Qed.

(** X13: what a handler served before can show in one place only.  For
    any request of any pipeline, the final response agrees with the one
    the freshly built handler gives on the status, on the body, on the
    calls made to the continuation and on every header other than
    [Access-Control-Allow-Headers]. *)
Theorem history_reaches_only_allowHeaders options jobs i job k :
  jobs !! i = Some job →
  k ≠ "Access-Control-Allow-Headers" →
  ∃ out, serve (cors options) jobs !! i = Some out ∧
    headers (final_response out) !! k
    = headers (final_response (invoke (cors options) job).2) !! k ∧
    status (final_response out)
    = status (final_response (invoke (cors options) job).2) ∧
    body (final_response out)
    = body (final_response (invoke (cors options) job).2) ∧
    next_calls out = next_calls (invoke (cors options) job).2.
Proof.
  intros Hjob Hk.
  destruct (serve_lookup (cors options) _ _ _ Hjob) as (env & Hev & Hout).
  eexists. split; [exact Hout|].
  destruct (env_of_invoke (cors options) job) as [_ ->].
  destruct (request_cases (job_request job)) as [Hno | [o Ho]].
  { by rewrite !run_main_no_origin. }
  destruct (is_preflight (job_request job)) eqn:Hpre.
  - rewrite !(run_main_preflight _ _ _ _ o) by done. cbn.
    split_and!; try done.
    by apply (headers_preflight_evolves (env_of (cors options)) env).
  - by rewrite (run_main_evolved_simple (env_of (cors options)) env).
Qed.

Lemma history_reaches_only_allowHeaders_witness :
  ∃ out,
    serve (cors None) [preflight_asking "X-First"; preflight_put] !! 1%nat
    = Some out ∧
    headers (final_response out) !! "Access-Control-Allow-Methods"
    = headers (final_response (invoke (cors None) preflight_put).2)
        !! "Access-Control-Allow-Methods" ∧
    status (final_response out)
    = status (final_response (invoke (cors None) preflight_put).2) ∧
    body (final_response out)
    = body (final_response (invoke (cors None) preflight_put).2) ∧
    next_calls out = next_calls (invoke (cors None) preflight_put).2.
Proof.
  apply (history_reaches_only_allowHeaders None
           [preflight_asking "X-First"; preflight_put] 1%nat preflight_put
           "Access-Control-Allow-Methods");
    [reflexivity | discriminate].
Defined.

(** X14: once a preflight with a non-empty [Origin] has asked for headers
    while [allowHeaders] had no value, every later preflight with a
    non-empty [Origin] that the handler serves receives those same headers
    in [Access-Control-Allow-Headers], whatever it asks for itself. *)
Theorem first_requested_headers_stick options first rest i job
    requested o o' :
  truthy (join_if_array (configured options allowHeaders)) = false →
  has_origin (job_request first) o →
  preflight (job_request first) →
  Request_get (job_request first) "Access-Control-Request-Headers"
  = Some requested →
  requested ≠ "" →
  rest !! i = Some job →
  has_origin (job_request job) o' →
  preflight (job_request job) →
  ∃ out, serve (cors options) (first :: rest) !! S i = Some out ∧
    headers (evaluated out) !! "Access-Control-Allow-Headers"
    = Some (Str requested).
Proof.
  intros Hfalsy Ho Hpre Hget Hne%truthy_string_true Hjob Ho' Hpre'.
  cbn [serve].
  destruct (env_of_invoke (cors options) first) as [Henv _].
  destruct (invoke (cors options) first) as [mw out1]. cbn in Henv |- *.
  assert (var_allowHeaders (env_of mw) = Some (Str requested)) as Hstored.
  { rewrite Henv, env_of_cors.
    apply is_preflight_spec in Hpre.
    rewrite (run_main_preflight _ _ _ _ o) by done. cbn.
    unfold resolved_allowHeaders.
    by rewrite cors_allowHeaders, Hfalsy, Hget. }
  destruct (serve_lookup mw _ _ _ Hjob) as (env & Hev & Hout).
  eexists. split; [exact Hout|].
  destruct Hev as (_ & _ & _ & _ & _ & _ & Hkeep & _).
  rewrite Hstored in Hkeep. cbn in Hkeep. specialize (Hkeep Hne).
  destruct (run_main_outcome env (job_request job) (job_response job)
              (job_next job)) as [Hno|o'' _ Hsimple|o'' _ _ -> _ _]; [| done |].
  - by destruct (origin_exclusive _ _ Ho').
  - rewrite headers_preflight by done. unfold resolved_allowHeaders.
    rewrite Hkeep. cbn. rewrite Hne.
    repeat case_decide; try done. cbn. by rewrite Hne.
Qed.

Lemma first_requested_headers_stick_witness :
  ∃ out,
    serve (cors None)
      [preflight_asking "X-First"; get_koajs; preflight_asking "X-Second"]
      !! 2%nat = Some out ∧
    headers (evaluated out) !! "Access-Control-Allow-Headers"
    = Some (Str "X-First").
Proof.
  apply (first_requested_headers_stick None (preflight_asking "X-First")
           [get_koajs; preflight_asking "X-Second"] 1%nat
           (preflight_asking "X-Second") "X-First"
           "http://koajs.com" "http://koajs.com").
  - reflexivity.
  - split; [reflexivity | discriminate].
  - split; [reflexivity|]. exists "PUT". split; [reflexivity | discriminate].
  - reflexivity.
  - discriminate.
  - reflexivity.
  - split; [reflexivity | discriminate].
  - split; [reflexivity|]. exists "PUT". split; [reflexivity | discriminate].
Defined.

(** ** Lists and their joined strings *)

Lemma join_empty l : join l = "" ↔ l = [] ∨ l = [""].
Proof.
  split; [|by intros [-> | ->]].
  destruct l as [|x [|y l]]; cbn.
  - by left.
  - intros ->. by right.
  - by destruct x.
Qed.

(** X15: a list given for [allowMethods], [allowHeaders] or
    [exposeHeaders] builds the same handler as its elements joined with
    commas and given as one string. *)
Theorem list_option_is_its_joined_string o l :
  cors (Some (with_allowMethods (Given (Some (Arr l))) o))
  = cors (Some (with_allowMethods (Given (Some (Str (join l)))) o)) ∧
  cors (Some (with_allowHeaders (Given (Some (Arr l))) o))
  = cors (Some (with_allowHeaders (Given (Some (Str (join l)))) o)) ∧
  cors (Some (with_exposeHeaders (Given (Some (Arr l))) o))
  = cors (Some (with_exposeHeaders (Given (Some (Str (join l)))) o)).
Proof. by split_and!. Qed.

(** X16: the lists that normalise to a value without effect are the empty
    list and the list holding one empty string, and no other: the joined
    string of any other list is truthy. *)
Theorem falsy_lists l :
  truthy (join_if_array (Some (Arr l))) = false ↔ l = [] ∨ l = [""].
Proof. cbn. by rewrite truthy_string_false, join_empty. Qed.

(** ** Handing over to the continuation *)

(** X17: when the request is not a preflight, the evaluator writes its
    headers first and calls the continuation last: the continuation is
    handed the evaluated response, and what it returns is the final
    response, with nothing written afterwards. *)
Theorem continuation_has_the_last_word options jobs i job :
  jobs !! i = Some job →
  ¬ preflight (job_request job) →
  ∃ out, serve (cors options) jobs !! i = Some out ∧
    next_calls out = [evaluated out] ∧
    final_response out = job_next job (evaluated out).
Proof.
  intros Hjob Hsimple.
  destruct (serve_outcome options _ _ _ Hjob)
    as (env & out & _ & Hout & Hcase).
  exists out. split; [done|].
  destruct Hcase as [_ Heval Hcalls Hfinal
                    |o _ _ _ Hcalls Hfinal
                    |o _ Hpre _ _ _]; [| done | done].
  by rewrite Heval, Hcalls, Hfinal.
Qed.

Lemma continuation_has_the_last_word_witness :
  ∃ out, serve (cors None) [get_koajs] !! 0%nat = Some out ∧
    next_calls out = [evaluated out] ∧
    final_response out = downstream (evaluated out).
Proof.
  apply (continuation_has_the_last_word None [get_koajs] 0%nat get_koajs).
  - reflexivity.
  - intros [Hmethod _]. discriminate Hmethod.
Defined.
